(** * Request orchestration of the image question-answering front end

  A shallow embedding of
    - [src/app/api/suggestions/route.ts]  (the tiered suggestion resolver),
    - [src/hooks/useAutoComplete.ts]      (debounce, cancellation, selection),
    - [src/hooks/useGeminiChat.ts] and [src/app/api/gemini/route.ts]
                                          (the image query pipeline),
    - [src/lib/gemini.ts]                 (the call to the vision model),
    - [src/components/common/QuestionBox.tsx], [ImageUploader.tsx] and
      [src/app/page.tsx]                  (the question field, the image
                                           chooser and their wiring).

  Strings are Rocq [string]s, read as sequences of ASCII code units: on
  such strings JavaScript's [length], [toLowerCase], [trim], [startsWith]
  and [includes] agree with the definitions of module [JS] below. *)

From Stdlib Require Import String Ascii List Bool ZArith NArith Arith Lia.
From Stdlib Require Import DecimalString.
Import ListNotations.

Open Scope string_scope.

(* ===================================================================== *)
(** ** The string primitives the sources call *)
(* ===================================================================== *)

Module JS.

(** [c.toLowerCase()] on one ASCII code unit. *)
Definition lowerChar (c : ascii) : ascii :=
  let n := N_of_ascii c in
  if ((65 <=? n) && (n <=? 90))%N then ascii_of_N (n + 32) else c.

(** [s.toLowerCase()] *)
Fixpoint toLowerCase (s : string) : string :=
  match s with
  | EmptyString => EmptyString
  | String c rest => String (lowerChar c) (toLowerCase rest)
  end.

(** [s.startsWith(p)] *)
Definition startsWith (s p : string) : bool := String.prefix p s.

(** [s.includes(p)]: [p] occurs at some offset of [s]. *)
Fixpoint includes (s p : string) : bool :=
  String.prefix p s ||
  match s with
  | EmptyString => false
  | String _ rest => includes rest p
  end.

(** The ASCII members of the WhiteSpace and LineTerminator classes. *)
Definition isWhiteSpace (c : ascii) : bool :=
  let n := N_of_ascii c in
  ((n =? 9) || (n =? 10) || (n =? 11) || (n =? 12) || (n =? 13) || (n =? 32))%N.

Fixpoint trimStart (s : string) : string :=
  match s with
  | EmptyString => EmptyString
  | String c rest => if isWhiteSpace c then trimStart rest else s
  end.

Fixpoint trimEnd (s : string) : string :=
  match s with
  | EmptyString => EmptyString
  | String c rest =>
      match trimEnd rest with
      | EmptyString => if isWhiteSpace c then EmptyString else String c EmptyString
      | kept => String c kept
      end
  end.

(** [s.trim()] *)
Definition trim (s : string) : string := trimEnd (trimStart s).

(** Truthiness of a string value: the empty string is falsy. *)
Definition truthy (s : string) : bool := negb (s =? "").

(** Truthiness of a value that is a string or [undefined]/[null]. *)
Definition truthy_opt (o : option string) : bool :=
  match o with
  | Some s => truthy s
  | None => false
  end.

(** [xs.slice(0, n)] *)
Definition slice0 {A : Type} (n : nat) (xs : list A) : list A := firstn n xs.

End JS.

(* ===================================================================== *)
(** ** [app/api/suggestions/route.ts]: the tiered suggestion resolver *)
(* ===================================================================== *)

Module Suggestions.

(** The [patterns] object literal. [Object.entries] enumerates string keys
    in insertion order, so the table is an association list. *)
Definition patterns : list (string * list string) :=
  [ ("what",
     [ "What objects are in this image?";
       "What is the main subject of this image?";
       "What colors are most prominent?";
       "What is happening in this scene?";
       "What text can you read?" ]);
    ("how",
     [ "How many people are in this image?";
       "How many objects can you count?";
       "How would you describe the lighting?";
       "How old does this appear to be?" ]);
    ("where",
     [ "Where was this photo taken?";
       "Where is the main focus?";
       "Where do you see text?" ]);
    ("describe",
     [ "Describe the scene in detail";
       "Describe the main subject";
       "Describe the background";
       "Describe the colors and lighting" ]);
    ("identify",
     [ "Identify all objects in this image";
       "Identify the main subject";
       "Identify any text visible";
       "Identify the setting or location" ]);
    ("count",
     [ "Count the number of people";
       "Count the objects visible";
       "Count how many items you see" ]);
    ("read",
     [ "Read any text in this image";
       "Read the signs or labels";
       "Read what is written here" ]) ].

(** The test of the [for] loop: [lower.startsWith(key) || lower.includes(key)]. *)
Definition keyMatches (lower key : string) : bool :=
  JS.startsWith lower key || JS.includes lower key.

(** The [.filter(...)] callback applied to a canned question. *)
Definition completes (lower s : string) : bool :=
  JS.startsWith (JS.toLowerCase s) lower || JS.includes (JS.toLowerCase s) lower.

(** The [for (const [key, suggestions] of Object.entries(patterns))] loop:
    it returns from the function at the first entry whose key matches. *)
Fixpoint scanPatterns (entries : list (string * list string)) (lower : string)
  : option (list string) :=
  match entries with
  | [] => None
  | (key, suggestions) :: rest =>
      if keyMatches lower key
      then Some (JS.slice0 3 (filter (completes lower) suggestions))
      else scanPatterns rest lower
  end.

(** The three template literals of the default branch. *)
Definition defaultSuggestions (partial : string) : list string :=
  [ partial ++ " do you see in this image?";
    partial ++ " is the main focus here?";
    partial ++ " can you identify?" ].

Definition getPatternBasedSuggestions (partial : string) : list string :=
  let lower := JS.toLowerCase partial in
  match scanPatterns patterns lower with
  | Some found => found
  | None =>
      JS.slice0 3
        (filter (fun s => (String.length s <=? 100)%nat) (defaultSuggestions partial))
  end.

(** What the remote inference call can come back with.  [HFItem] is an
    element of the JSON array; its [generated_text] may be absent. *)
Record HFItem : Type := { generated_text : option string }.

Inductive HFReply : Type :=
| HFUnreachable                       (* [fetch] rejects *)
| HFStatus (status : nat)             (* [!response.ok] *)
| HFMalformed                         (* [response.json()] or a property access throws *)
| HFData (data : list HFItem).        (* a JSON array *)

Definition callHuggingFaceModel (partial : string) (reply : HFReply) : list string :=
  match reply with
  | HFData data =>
      let suggestions :=
        match data with
        | {| generated_text := Some text |} :: _ =>
            if JS.truthy text then [JS.trim text] else []
        | _ => []
        end in
      JS.slice0 3
        (filter (fun s => (String.length partial <? String.length s)%nat
                          && (String.length s <=? 100)%nat) suggestions)
  | HFUnreachable | HFStatus _ | HFMalformed => []
  end.

Inductive LocalReply : Type :=
| LocalUnreachable
| LocalNotOk
| LocalData (suggestions : option (list string)).

(** The process environment and the two services, as seen by one call. *)
Record Env : Type := {
  HUGGING_FACE_API_KEY : option string;
  LOCAL_MODEL_API_URL : option string;
  huggingFace : HFReply;
  localModel : LocalReply
}.

Definition tryLocalModel (env : Env) (partial : string) : list string :=
  if JS.truthy_opt (LOCAL_MODEL_API_URL env) then
    match localModel env with
    | LocalData (Some suggestions) => suggestions
    | LocalData None => []
    | LocalUnreachable | LocalNotOk => []
    end
  else [].

Definition generateSuggestions (env : Env) (partial : string) : list string :=
  let viaHF :=
    if JS.truthy_opt (HUGGING_FACE_API_KEY env)
    then callHuggingFaceModel partial (huggingFace env)
    else [] in
  match viaHF with
  | _ :: _ => viaHF
  | [] =>
      match tryLocalModel env partial with
      | (_ :: _) as localSuggestions => localSuggestions
      | [] => getPatternBasedSuggestions partial
      end
  end.

(** The body of a successful [POST /api/suggestions] for a string [partial]. *)
Definition POST (env : Env) (partial : string) : option (list string) :=
  if negb (JS.truthy partial) then None
  else if (String.length partial <? 3)%nat then Some []
  else Some (generateSuggestions env partial).

(** Both upstream tiers switched off. *)
Definition offline : Env :=
  {| HUGGING_FACE_API_KEY := None; LOCAL_MODEL_API_URL := None;
     huggingFace := HFUnreachable; localModel := LocalUnreachable |}.

(** A response carrying three generated sequences, as requested by
    [num_return_sequences: 3]. *)
Definition threeGenerated : HFReply :=
  HFData [ {| generated_text := Some " What is shown in the picture? " |};
           {| generated_text := Some "What is the weather like here?" |};
           {| generated_text := Some "What is written on the sign?" |} ].

(* Vocabulary for stating properties of the resolver. *)

(** Neither upstream tier has anything for [partial]. *)
Definition upstreamSilent (env : Env) (partial : string) : Prop :=
  (if JS.truthy_opt (HUGGING_FACE_API_KEY env)
   then callHuggingFaceModel partial (huggingFace env) else []) = []
  /\ tryLocalModel env partial = [].

(** The first table entry whose key occurs in the lower-cased input. *)
Definition firstMatch (lower : string) : option (string * list string) :=
  find (fun entry => keyMatches lower (fst entry)) patterns.

(** The suffixes of the default branch. *)
Definition suffixes : list string :=
  [" do you see in this image?"; " is the main focus here?"; " can you identify?"].

End Suggestions.

(* ===================================================================== *)
(** ** [hooks/useAutoComplete.ts]: suggestion state, debounce, cancellation *)
(* ===================================================================== *)

Module AutoComplete.

Record AutoCompleteState : Type := {
  suggestions : list string;
  isLoading : bool;
  selectedIndex : Z;
  showSuggestions : bool
}.

(** The argument of [useState]. *)
Definition initialState : AutoCompleteState :=
  {| suggestions := []; isLoading := false; selectedIndex := -1;
     showSuggestions := false |}.

Inductive Direction : Type := up | down.

(** The updater passed to [setState] by [navigateSuggestions]. *)
Definition navigateSuggestions (direction : Direction) (prev : AutoCompleteState)
  : AutoCompleteState :=
  if negb (showSuggestions prev) || (List.length (suggestions prev) =? 0)%nat
  then prev
  else
    let len := Z.of_nat (List.length (suggestions prev)) in
    let newIndex := selectedIndex prev in
    let newIndex :=
      match direction with
      | down => if (newIndex <? len - 1)%Z then (newIndex + 1)%Z else (-1)%Z
      | up => if (newIndex >? -1)%Z then (newIndex - 1)%Z else (len - 1)%Z
      end in
    {| suggestions := suggestions prev; isLoading := isLoading prev;
       selectedIndex := newIndex; showSuggestions := showSuggestions prev |}.

(** [{...prev, showSuggestions: false, selectedIndex: -1}] *)
Definition hideSuggestions (prev : AutoCompleteState) : AutoCompleteState :=
  {| suggestions := suggestions prev; isLoading := isLoading prev;
     selectedIndex := -1; showSuggestions := false |}.

Definition clearSuggestions (_ : AutoCompleteState) : AutoCompleteState :=
  initialState.

(** [selectSuggestion(index?)]: the returned string and the next state. *)
Definition selectSuggestion (index : option Z) (st : AutoCompleteState)
  : option string * AutoCompleteState :=
  let chosen := match index with Some i => i | None => selectedIndex st end in
  if ((0 <=? chosen) && (chosen <? Z.of_nat (List.length (suggestions st))))%Z
  then (nth_error (suggestions st) (Z.to_nat chosen), hideSuggestions st)
  else (None, st).

(* The three updaters [fetchSuggestions] hands to [setState]. *)

(** [{...prev, suggestions: [], showSuggestions: false, isLoading: false}],
    used for short text, for an unsuccessful body and in the [catch] block. *)
Definition emptied (prev : AutoCompleteState) : AutoCompleteState :=
  {| suggestions := []; isLoading := false;
     selectedIndex := selectedIndex prev; showSuggestions := false |}.

(** [{...prev, isLoading: true}] *)
Definition awaiting (prev : AutoCompleteState) : AutoCompleteState :=
  {| suggestions := suggestions prev; isLoading := true;
     selectedIndex := selectedIndex prev; showSuggestions := showSuggestions prev |}.

(** The updater of the branch [data.success && Array.isArray(data.suggestions)]. *)
Definition installed (items : list string) (prev : AutoCompleteState)
  : AutoCompleteState :=
  {| suggestions := items; isLoading := false; selectedIndex := -1;
     showSuggestions := (0 <? List.length items)%nat |}.

(** How the awaited [fetch('/api/suggestions')] of one call ends. *)
Inductive Reply : Type :=
| Rejected                 (* [fetch] rejects: transport failure or AbortError *)
| NotOk                    (* [!response.ok], the call throws *)
| BadBody                  (* [response.json()] rejects *)
| Body (success : bool) (items : option (list string)).
                           (* [items = None]: [data.suggestions] is no array *)

(** The part of [fetchSuggestions] after its [await]s: the state update
    that one reply leads to. *)
Definition settle (reply : Reply) (prev : AutoCompleteState) : AutoCompleteState :=
  match reply with
  | Body true (Some items) => installed items prev
  | Body _ _ => emptied prev
  | Rejected | NotOk | BadBody => emptied prev
  end.

(** The selection is the sentinel or an index into the list. *)
Definition inRange (st : AutoCompleteState) : Prop :=
  (-1 <= selectedIndex st < Z.of_nat (List.length (suggestions st)))%Z.

(** The list is shown and has entries: the guard of [navigateSuggestions]. *)
Definition offering (st : AutoCompleteState) : Prop :=
  showSuggestions st = true /\ suggestions st <> [].

(** A pending [setTimeout] and a started [fetch]. *)
Record Timer : Type := { deadline : Z; pendingText : string }.
Record Request : Type := { requestId : nat; partial : string }.

(** The hook instance: React state, the two refs, the calls of
    [fetchSuggestions] suspended at an [await], and the log of every
    request sent to [/api/suggestions]. An [AbortController] is identified
    with the request it was created for. *)
Record Hook : Type := {
  state : AutoCompleteState;
  debounceRef : option Timer;
  abortControllerRef : option nat;
  inFlight : list Request;
  sent : list Request
}.

Definition mount : Hook :=
  {| state := initialState; debounceRef := None; abortControllerRef := None;
     inFlight := []; sent := [] |}.

Definition withState (f : AutoCompleteState -> AutoCompleteState) (h : Hook) : Hook :=
  {| state := f (state h); debounceRef := debounceRef h;
     abortControllerRef := abortControllerRef h;
     inFlight := inFlight h; sent := sent h |}.

Definition isRequest (id : nat) (r : Request) : bool := (requestId r =? id)%nat.

(** [abortControllerRef.current.abort()]: a call still suspended on that
    controller's signal is taken out of flight; its [await] rejects with an
    AbortError, and the flag tells the caller that its [catch] block is now
    queued. Aborting a controller whose call has finished does nothing. *)
Definition abortCurrent (h : Hook) : Hook * bool :=
  match abortControllerRef h with
  | Some c =>
      if existsb (isRequest c) (inFlight h)
      then ({| state := state h; debounceRef := debounceRef h;
               abortControllerRef := abortControllerRef h;
               inFlight := filter (fun r => negb (isRequest c r)) (inFlight h);
               sent := sent h |}, true)
      else (h, false)
  | None => (h, false)
  end.

(** [!text || text.length < 3] *)
Definition tooShort (text : string) : bool :=
  negb (JS.truthy text) || (String.length text <? 3)%nat.

(** One run of [fetchSuggestions(text)] up to its first [await], followed by
    the microtask the abort has queued: the [catch] block of the aborted
    call, which runs before any later task. *)
Definition fetchSuggestions (text : string) (h : Hook) : Hook :=
  let (h1, woken) := abortCurrent h in
  let h2 :=
    if tooShort text then withState emptied h1
    else
      let request := {| requestId := List.length (sent h1); partial := JS.trim text |} in
      {| state := awaiting (state h1); debounceRef := debounceRef h1;
         abortControllerRef := Some (requestId request);
         inFlight := inFlight h1 ++ [request];
         sent := sent h1 ++ [request] |} in
  if woken then withState (settle Rejected) h2 else h2.

(** The reply for request [id] arrives: its suspended call resumes.
    A request no longer in flight has no continuation left to run. *)
Definition deliver (id : nat) (reply : Reply) (h : Hook) : Hook :=
  if existsb (isRequest id) (inFlight h)
  then {| state := settle reply (state h); debounceRef := debounceRef h;
          abortControllerRef := abortControllerRef h;
          inFlight := filter (fun r => negb (isRequest id r)) (inFlight h);
          sent := sent h |}
  else h.

(** [getSuggestions(text)] called at time [now] (milliseconds):
    [clearTimeout] of the pending timer, then [setTimeout(..., 300)]. *)
Definition getSuggestions (now : Z) (text : string) (h : Hook) : Hook :=
  {| state := state h;
     debounceRef := Some {| deadline := (now + 300)%Z; pendingText := text |};
     abortControllerRef := abortControllerRef h;
     inFlight := inFlight h; sent := sent h |}.

(** The clock reaches [now]: a timer that is due runs its callback. A timer
    that has run is spent; clearing its stale handle would do nothing, so
    the ref is shown empty afterwards. *)
Definition elapse (now : Z) (h : Hook) : Hook :=
  match debounceRef h with
  | Some timer =>
      if (deadline timer <=? now)%Z
      then fetchSuggestions (pendingText timer)
             {| state := state h; debounceRef := None;
                abortControllerRef := abortControllerRef h;
                inFlight := inFlight h; sent := sent h |}
      else h
  | None => h
  end.

(** [handleInputChange] of [QuestionBox.tsx], the only caller of
    [getSuggestions]. *)
Definition handleInputChange (now : Z) (value : string) (h : Hook) : Hook :=
  if (0 <? String.length value)%nat
  then getSuggestions now value h
  else withState clearSuggestions h.

(** What can happen to a mounted hook. *)
Inductive Action : Type :=
| Edit (now : Z) (text : string)
| Tick (now : Z)
| Arrive (id : nat) (reply : Reply)
| Navigate (direction : Direction)
| Select (index : option Z)
| Hide
| Clear.

Definition act (a : Action) (h : Hook) : Hook :=
  match a with
  | Edit now text => getSuggestions now text (elapse now h)
  | Tick now => elapse now h
  | Arrive id reply => deliver id reply h
  | Navigate direction => withState (navigateSuggestions direction) h
  | Select index => withState (fun st => snd (selectSuggestion index st)) h
  | Hide => withState hideSuggestions h
  | Clear => withState clearSuggestions h
  end.

Definition run (actions : list Action) (h : Hook) : Hook :=
  fold_left (fun h a => act a h) actions h.

(** The time and text of the last edit among [actions], [seed] if none. *)
Fixpoint lastEdit (seed : Z * string) (actions : list Action) : Z * string :=
  match actions with
  | [] => seed
  | Edit now text :: rest => lastEdit (now, text) rest
  | _ :: rest => lastEdit seed rest
  end.

(** A burst after an edit at time [t]: every further edit comes less than
    300 ms after the one before it, and the clock is never observed 300 ms
    past the latest edit. Replies and navigation may fall in between. *)
Fixpoint burst (t : Z) (actions : list Action) : Prop :=
  match actions with
  | [] => True
  | Edit now _ :: rest => (t <= now < t + 300)%Z /\ burst now rest
  | Tick now :: rest => (now < t + 300)%Z /\ burst t rest
  | _ :: rest => burst t rest
  end.

(** Sample hooks. [shown]: three items on display, a second request in
    flight. [navigated]: as [shown], with the second item selected. *)
Definition threeItems : list string :=
  [ "What objects are in this image?";
    "What colors are most prominent?";
    "What text can you read?" ].

Definition lastSelected : AutoCompleteState :=
  {| suggestions := threeItems; isLoading := false; selectedIndex := 2;
     showSuggestions := true |}.

Definition shown : Hook :=
  run [Edit 0 "what"; Tick 300; Arrive 0 (Body true (Some threeItems));
       Edit 1000 "what c"; Tick 1300] mount.

Definition navigated : Hook :=
  run [Edit 0 "what"; Tick 300; Arrive 0 (Body true (Some threeItems));
       Navigate down; Navigate down; Edit 1000 "what c"; Tick 1300] mount.

(** At most the call started last is in flight, and it is the one the
    current controller belongs to. *)
Definition singleFlight (h : Hook) : Prop :=
  forall r, In r (inFlight h) -> abortControllerRef h = Some (requestId r).

End AutoComplete.

(* ===================================================================== *)
(** ** [app/api/gemini/route.ts]: the question route in front of the model *)
(* ===================================================================== *)

Module GeminiRoute.

(** [GeminiResponse] of [lib/gemini.ts]. *)
Record GeminiResponse : Type := {
  success : bool;
  data : option string;
  error : option string
}.

Definition refuse (message : string) : GeminiResponse :=
  {| success := false; data := None; error := Some message |}.

(** [POST] for a body whose [image] and [question] are strings.
    [callGeminiVision] catches everything it throws, so it is a function to
    responses. The second component lists the calls made to it. *)
Definition POST (callGeminiVision : string -> string -> GeminiResponse)
    (image question : string) : GeminiResponse * list (string * string) :=
  if negb (JS.truthy image) || negb (JS.truthy question)
  then (refuse "Image and question are required", [])
  else if (500 <? String.length question)%nat
  then (refuse "Question too long (max 500 characters)", [])
  else (callGeminiVision image question, [(image, question)]).

End GeminiRoute.

(* ===================================================================== *)
(** ** [hooks/useGeminiChat.ts]: the image query pipeline *)
(* ===================================================================== *)

Module GeminiChat.

Record ChatState : Type := {
  result : option string;
  isLoading : bool;
  error : option string
}.

Definition idle : ChatState :=
  {| result := None; isLoading := false; error := None |}.

(** [ImageData]; the [File] object is kept by name only. *)
Record ImageData : Type := {
  file : option string;
  url : option string;
  preview : string
}.

(** The three [useState] cells. [generation] is a ghost counter of image
    changes: the source keeps no such field; it is recorded here only to
    state which image a result was asked for. *)
Record Hook : Type := {
  chatState : ChatState;
  currentImage : option string;
  imageData : option ImageData;
  generation : nat
}.

Definition mount : Hook :=
  {| chatState := idle; currentImage := None; imageData := None; generation := 0 |}.

Definition handleImageSelect (d : ImageData) (h : Hook) : Hook :=
  {| chatState := idle; currentImage := Some (preview d); imageData := Some d;
     generation := S (generation h) |}.

Definition handleImageClear (h : Hook) : Hook :=
  {| chatState := idle; currentImage := None; imageData := None;
     generation := S (generation h) |}.

(** [{...prev, error: null}] *)
Definition retry (h : Hook) : Hook :=
  {| chatState := {| result := result (chatState h);
                     isLoading := isLoading (chatState h); error := None |};
     currentImage := currentImage h; imageData := imageData h;
     generation := generation h |}.

(** Network traffic of the client, in the order it is issued. *)
Inductive NetEvent : Type :=
| FetchImage (location : string)
| PostGemini (image question : string).

Inductive ImageFetch : Type :=
| ImageFetchFailed                    (* [fetch], [blob] or the reader rejects *)
| ImageFetched (dataUrl : string).

Inductive RouteReply : Type :=
| ReplyThrown (message : option string)
    (* [fetch] or [response.json()] rejects; [Some m] for an [Error] *)
| ReplyJson (success : bool) (data : option string) (error : option string).

Record Network : Type := {
  fetchImage : string -> ImageFetch;
  postGemini : string -> string -> RouteReply
}.

(** What a started [askQuestion] call holds on to across its [await]s: the
    values its closure captured, and (ghost) the generation it began in. *)
Record Flight : Type := {
  askedGeneration : nat;
  askedImage : string;
  askedData : ImageData;
  askedQuestion : string
}.

(** [askQuestion] up to its first [await]. *)
Definition askQuestion_begin (question : string) (h : Hook) : Hook * option Flight :=
  match imageData h, currentImage h with
  | Some d, Some image =>
      if JS.truthy image
      then ({| chatState := {| result := None; isLoading := true; error := None |};
               currentImage := currentImage h; imageData := imageData h;
               generation := generation h |},
            Some {| askedGeneration := generation h; askedImage := image;
                    askedData := d; askedQuestion := question |})
      else ({| chatState := {| result := result (chatState h);
                               isLoading := isLoading (chatState h);
                               error := Some "Please select an image first" |};
               currentImage := currentImage h; imageData := imageData h;
               generation := generation h |}, None)
  | _, _ =>
      ({| chatState := {| result := result (chatState h);
                          isLoading := isLoading (chatState h);
                          error := Some "Please select an image first" |};
          currentImage := currentImage h; imageData := imageData h;
          generation := generation h |}, None)
  end.

(** The image handed to the route: [None] when the inner [catch] rethrows. *)
Definition prepareImage (net : Network) (fl : Flight) : list NetEvent * option string :=
  match file (askedData fl) with
  | Some _ => ([], Some (askedImage fl))
  | None =>
      match url (askedData fl) with
      | Some location =>
          if JS.truthy location
          then match fetchImage net location with
               | ImageFetched base64 => ([FetchImage location], Some base64)
               | ImageFetchFailed => ([FetchImage location], None)
               end
          else ([], Some (askedImage fl))
      | None => ([], Some (askedImage fl))
      end
  end.

(** The [try] block of [askQuestion]: the traffic it causes and the value
    its final [setChatState] is called with. *)
Definition askQuestion_network (net : Network) (fl : Flight)
  : list NetEvent * ChatState :=
  match prepareImage net fl with
  | (traffic, None) =>
      (traffic, {| result := None; isLoading := false;
                   error := Some "Failed to fetch image from URL" |})
  | (traffic, Some imageForAPI) =>
      let question := JS.trim (askedQuestion fl) in
      let traffic := (traffic ++ [PostGemini imageForAPI question])%list in
      match postGemini net imageForAPI question with
      | ReplyJson true data _ =>
          (traffic, {| result := data; isLoading := false; error := None |})
      | ReplyJson false _ err =>
          (traffic, {| result := None; isLoading := false;
                       error := Some (if JS.truthy_opt err
                                      then match err with Some e => e | None => "" end
                                      else "Failed to analyze image") |})
      | ReplyThrown (Some message) =>
          (traffic, {| result := None; isLoading := false; error := Some message |})
      | ReplyThrown None =>
          (traffic, {| result := None; isLoading := false;
                       error := Some "Network error occurred" |})
      end
  end.

(** The final [setChatState(...)] of a call: an object, not an updater, and
    under no condition. *)
Definition askQuestion_arrive (outcome : ChatState) (h : Hook) : Hook :=
  {| chatState := outcome; currentImage := currentImage h;
     imageData := imageData h; generation := generation h |}.

(** User actions on the image while a call is suspended. *)
Inductive ImageChange : Type :=
| SelectImage (d : ImageData)
| ClearImage.

Definition change (c : ImageChange) (h : Hook) : Hook :=
  match c with
  | SelectImage d => handleImageSelect d h
  | ClearImage => handleImageClear h
  end.

Definition changes (cs : list ImageChange) (h : Hook) : Hook :=
  fold_left (fun h c => change c h) cs h.

(** A whole call, with the image changes [cs] made by the user while the
    call is suspended at its [await]s. *)
Definition askQuestion_during (net : Network) (question : string)
    (cs : list ImageChange) (h : Hook) : Hook * list NetEvent :=
  match askQuestion_begin question h with
  | (h1, Some fl) =>
      let (traffic, outcome) := askQuestion_network net fl in
      (askQuestion_arrive outcome (changes cs h1), traffic)
  | (h1, None) => (changes cs h1, [])
  end.

(** A whole call with nothing else happening in between. *)
Definition askQuestion (net : Network) (question : string) (h : Hook)
  : Hook * list NetEvent :=
  askQuestion_during net question [] h.

(** The client's view of [/api/gemini] when the route of [GeminiRoute]
    answers, [vision] standing for [callGeminiVision]. *)
Definition viaRoute (vision : string -> string -> GeminiRoute.GeminiResponse)
    (images : string -> ImageFetch) : Network :=
  {| fetchImage := images;
     postGemini := fun image question =>
       let r := fst (GeminiRoute.POST vision image question) in
       ReplyJson (GeminiRoute.success r) (GeminiRoute.data r) (GeminiRoute.error r) |}.

(** The calls to the vision model that a client trace leads to. *)
Definition visionCalls (vision : string -> string -> GeminiRoute.GeminiResponse)
    (traffic : list NetEvent) : list (string * string) :=
  flat_map (fun e =>
              match e with
              | PostGemini image question =>
                  snd (GeminiRoute.POST vision image question)
              | FetchImage _ => []
              end) traffic.

(** [status] of the specification's [QueryResult], read off [ChatState]. *)
Inductive Status : Type := StatusIdle | StatusLoading | StatusSuccess | StatusError.

Definition status (c : ChatState) : Status :=
  if isLoading c then StatusLoading
  else match error c, result c with
       | Some _, _ => StatusError
       | None, Some _ => StatusSuccess
       | None, None => StatusIdle
       end.

(** Sample data: an uploaded file, a second one, an image given by URL,
    a network on which the image host is down and the model answers, and
    a question of 501 characters. *)
Definition photoA : ImageData :=
  {| file := Some "a.png"; url := None; preview := "data:image/png;base64,AAAA" |}.

Definition photoB : ImageData :=
  {| file := Some "b.png"; url := None; preview := "data:image/png;base64,BBBB" |}.

Definition remote : ImageData :=
  {| file := None; url := Some "https://example.org/cat.jpg";
     preview := "https://example.org/cat.jpg" |}.

Definition describes (image question : string) : GeminiRoute.GeminiResponse :=
  {| GeminiRoute.success := true; GeminiRoute.data := Some "A cat on a sofa.";
     GeminiRoute.error := None |}.

Definition hostDown : Network := viaRoute describes (fun _ => ImageFetchFailed).

Definition hostUp : Network :=
  viaRoute describes (fun _ => ImageFetched "data:image/jpeg;base64,CCCC").

Definition verbose : string := string_of_list_ascii (repeat "a"%char 501).

End GeminiChat.

(** [s] is empty or begins with a character that [trim] keeps. *)
Definition startsClean (s : string) : Prop :=
  match s with
  | EmptyString => True
  | String c _ => JS.isWhiteSpace c = false
  end.

(** Counting the edits among the actions of a run. *)
Definition isEdit (a : AutoComplete.Action) : bool :=
  match a with
  | AutoComplete.Edit _ _ => true
  | _ => false
  end.

Definition edits (actions : list AutoComplete.Action) : nat :=
  List.length (filter isEdit actions).

(** One for a pending timer, none otherwise. *)
Definition armed (h : AutoComplete.Hook) : nat :=
  match AutoComplete.debounceRef h with
  | Some _ => 1
  | None => 0
  end.

(** A visible list has entries and a selection within them. *)
Definition presentable (st : AutoComplete.AutoCompleteState) : Prop :=
  AutoComplete.showSuggestions st = true ->
  AutoComplete.suggestions st <> [] /\ AutoComplete.inRange st.

(** The loading flag is backed by a request in flight. *)
Definition spinning (h : AutoComplete.Hook) : Prop :=
  AutoComplete.isLoading (AutoComplete.state h) = true -> AutoComplete.inFlight h <> [].

(** Every request sent, and the pending timer, stem from an edit seen. *)
Definition traced (seen : list AutoComplete.Action) (h : AutoComplete.Hook) : Prop :=
  (forall r, In r (AutoComplete.sent h) ->
     exists now text, In (AutoComplete.Edit now text) seen
                      /\ AutoComplete.partial r = JS.trim text
                      /\ 3 <= String.length text)
  /\ (forall timer, AutoComplete.debounceRef h = Some timer ->
        exists now, In (AutoComplete.Edit now (AutoComplete.pendingText timer)) seen).

(** The chat state a reply of the question route leads to: the two
    branches on [data.success] and the outer [catch] block of [askQuestion]. *)
Definition replyState (reply : GeminiChat.RouteReply) : GeminiChat.ChatState :=
  match reply with
  | GeminiChat.ReplyJson true data _ =>
      {| GeminiChat.result := data; GeminiChat.isLoading := false;
         GeminiChat.error := None |}
  | GeminiChat.ReplyJson false _ err =>
      {| GeminiChat.result := None; GeminiChat.isLoading := false;
         GeminiChat.error := Some (if JS.truthy_opt err
                                   then match err with Some e => e | None => "" end
                                   else "Failed to analyze image") |}
  | GeminiChat.ReplyThrown (Some message) =>
      {| GeminiChat.result := None; GeminiChat.isLoading := false;
         GeminiChat.error := Some message |}
  | GeminiChat.ReplyThrown None =>
      {| GeminiChat.result := None; GeminiChat.isLoading := false;
         GeminiChat.error := Some "Network error occurred" |}
  end.

(* ===================================================================== *)
(** ** [lib/gemini.ts]: the call to the vision model *)
(* ===================================================================== *)

Module GeminiLib.

(** [s.slice(n)] *)
Fixpoint sliceFrom (n : nat) (s : string) : string :=
  match n, s with
  | O, _ => s
  | S _, EmptyString => EmptyString
  | S m, String _ rest => sliceFrom m rest
  end.

(** What follows the first occurrence of [sep] in [s]. *)
Fixpoint afterFirst (sep s : string) : option string :=
  if String.prefix sep s then Some (sliceFrom (String.length sep) s)
  else match s with
       | EmptyString => None
       | String _ rest => afterFirst sep rest
       end.

(** What precedes the first occurrence of [sep] in [s], all of [s] if there
    is none. *)
Fixpoint beforeFirst (sep s : string) : string :=
  if String.prefix sep s then EmptyString
  else match s with
       | EmptyString => EmptyString
       | String c rest => String c (beforeFirst sep rest)
       end.

(** [s.split(sep)[1]] for a non-empty [sep]: the piece between the first and
    the second occurrence of [sep]; [None] is [undefined]. *)
Definition splitSecond (sep s : string) : option string :=
  option_map (beforeFirst sep) (afterFirst sep s).

(** The longest prefix of [s] matched by [[^;]*]. *)
Fixpoint untilSemicolon (s : string) : string :=
  match s with
  | EmptyString => EmptyString
  | String c rest => if Ascii.eqb c ";" then EmptyString else String c (untilSemicolon rest)
  end.

(** The capture group of [s.match(/data:image\/([^;]+)/)]: the leftmost
    position where the literal is followed by at least one character other
    than a semicolon, and the longest run of such characters there. *)
Fixpoint mimeMatch (s : string) : option string :=
  let captured :=
    if String.prefix "data:image/" s then untilSemicolon (sliceFrom 11 s)
    else EmptyString in
  if JS.truthy captured then Some captured
  else match s with
       | EmptyString => None
       | String _ rest => mimeMatch rest
       end.

Definition base64Data (imageData : string) : string :=
  if JS.includes imageData "base64,"
  then match splitSecond "base64," imageData with
       | Some piece => piece
       | None => imageData
       end
  else imageData.

Definition mimeType (imageData : string) : string :=
  if JS.includes imageData "data:image/"
  then match mimeMatch imageData with
       | Some subtype => "image/" ++ subtype
       | None => "image/jpeg"
       end
  else "image/jpeg".

(** The request sent to the model: the key in the URL and the two parts of
    [requestBody]. *)
Record VisionRequest : Type := {
  apiKey : string;
  mime_type : string;
  inline_data : string;
  text : string
}.

(** A candidate of the response: the texts of [content.parts] ([None] when
    [content] or [parts] is missing, and for a part without text), and
    [finishReason]. *)
Record Candidate : Type := {
  parts : option (list (option string));
  finishReason : option string
}.

Inductive VisionReply : Type :=
| VisionUnreachable (message : option string)
    (* [fetch] rejects; [Some m] for an [Error] *)
| VisionNotOk (apiMessage : option string) (status : nat) (statusText : string)
    (* [!response.ok]; [apiMessage] is [errorData?.error?.message] *)
| VisionMalformed (message : option string)
    (* [response.json()] rejects *)
| VisionData (candidates : option (list Candidate)).

Definition keyMissing : string :=
  "Gemini API key not found. Please set GEMINI_API_KEY in your environment variables.".

Definition blockedSafety : string :=
  "Content was blocked due to safety filters. Try rephrasing your question.".

Definition blockedRecitation : string :=
  "Content was blocked due to recitation concerns. Try a different image or question.".

Definition noValidResponse : string :=
  "No valid response generated. Please try a different image or question.".

(** The [catch] block: [error instanceof Error ? error.message : ...]. *)
Definition caught (message : option string) : GeminiRoute.GeminiResponse :=
  {| GeminiRoute.success := false; GeminiRoute.data := None;
     GeminiRoute.error := Some match message with
                               | Some m => m
                               | None => "Unknown error occurred"
                               end |}.

Definition decimal (n : nat) : string := NilEmpty.string_of_uint (Nat.to_uint n).

(** The function from the [await fetch] on. *)
Definition readReply (reply : VisionReply) : GeminiRoute.GeminiResponse :=
  match reply with
  | VisionUnreachable message => caught message
  | VisionNotOk apiMessage status statusText =>
      caught (Some (if JS.truthy_opt apiMessage
                    then match apiMessage with Some m => m | None => "" end
                    else "Gemini API error: " ++ decimal status ++ " " ++ statusText))
  | VisionMalformed message => caught message
  | VisionData candidates =>
      match candidates with
      | Some (candidate :: _) =>
          match parts candidate with
          | Some (first :: _) =>
              {| GeminiRoute.success := true; GeminiRoute.data := first;
                 GeminiRoute.error := None |}
          | _ =>
              if JS.truthy_opt (finishReason candidate)
              then match finishReason candidate with
                   | Some "SAFETY" => caught (Some blockedSafety)
                   | Some "RECITATION" => caught (Some blockedRecitation)
                   | _ => caught (Some noValidResponse)
                   end
              else caught (Some noValidResponse)
          end
      | _ => caught (Some noValidResponse)
      end
  end.

(** [callGeminiVision]: the response, and the requests it sent. *)
Definition callGeminiVision (GEMINI_API_KEY : option string)
    (gemini : VisionRequest -> VisionReply) (imageData question : string)
  : GeminiRoute.GeminiResponse * list VisionRequest :=
  if JS.truthy_opt GEMINI_API_KEY
  then
    let request :=
      {| apiKey := match GEMINI_API_KEY with Some k => k | None => "" end;
         mime_type := mimeType imageData;
         inline_data := base64Data imageData;
         text := question |} in
    (readReply (gemini request), [request])
  else (caught (Some keyMissing), []).

(** A data URI as [FileReader.readAsDataURL] builds it. *)
Definition dataURI (subtype payload : string) : string :=
  "data:image/" ++ subtype ++ ";base64," ++ payload.

Definition noSemicolon (s : string) : Prop := untilSemicolon s = s.

End GeminiLib.

(* ===================================================================== *)
(** ** [components/common/ImageUploader.tsx]: choosing the image *)
(* ===================================================================== *)

Module ImageUploader.

(** A [File], with what [FileReader.readAsDataURL] reads from it. *)
Record File : Type := {
  name : string;
  type : string;
  dataUrl : string
}.

Definition handleFileSelect (file : File) (h : GeminiChat.Hook) : GeminiChat.Hook :=
  if JS.startsWith (type file) "image/"
  then GeminiChat.handleImageSelect
         {| GeminiChat.file := Some (name file); GeminiChat.url := None;
            GeminiChat.preview := dataUrl file |} h
  else h.

Definition handleUrlSubmit (urlInput : string) (h : GeminiChat.Hook) : GeminiChat.Hook :=
  if JS.truthy (JS.trim urlInput)
  then GeminiChat.handleImageSelect
         {| GeminiChat.file := None; GeminiChat.url := Some (JS.trim urlInput);
            GeminiChat.preview := JS.trim urlInput |} h
  else h.

End ImageUploader.

(* ===================================================================== *)
(** ** [components/common/QuestionBox.tsx]: the question field *)
(* ===================================================================== *)

Module QuestionBox.

(** The [question] cell, the auto-complete hook, and the calls made to the
    [onSubmit] prop. *)
Record Box : Type := {
  question : string;
  auto : AutoComplete.Hook;
  submitted : list string
}.

Definition empty : Box :=
  {| question := ""; auto := AutoComplete.mount; submitted := [] |}.

Definition handleSubmit (disabled : bool) (b : Box) : Box :=
  if JS.truthy (JS.trim (question b)) && negb disabled
  then {| question := "";
          auto := AutoComplete.withState AutoComplete.clearSuggestions (auto b);
          submitted := (submitted b ++ [JS.trim (question b)])%list |}
  else b.

Inductive Key : Type := ArrowDown | ArrowUp | Tab | Enter | Escape | OtherKey.

(** [selectSuggestion(index)] followed by [if (selected) setQuestion(selected)]:
    shared by the Tab/Enter branch and [handleSuggestionClick]. *)
Definition takeSuggestion (index : option Z) (b : Box) : Box :=
  let (selected, st) :=
    AutoComplete.selectSuggestion index (AutoComplete.state (auto b)) in
  {| question := match selected with
                 | Some s => if JS.truthy s then s else question b
                 | None => question b
                 end;
     auto := AutoComplete.withState (fun _ => st) (auto b);
     submitted := submitted b |}.

Definition withAuto (f : AutoComplete.AutoCompleteState -> AutoComplete.AutoCompleteState)
    (b : Box) : Box :=
  {| question := question b; auto := AutoComplete.withState f (auto b);
     submitted := submitted b |}.

Definition handleKeyDown (key : Key) (shiftKey disabled : bool) (b : Box) : Box :=
  let st := AutoComplete.state (auto b) in
  if AutoComplete.showSuggestions st
     && (0 <? List.length (AutoComplete.suggestions st))%nat
  then
    match key with
    | ArrowDown => withAuto (AutoComplete.navigateSuggestions AutoComplete.down) b
    | ArrowUp => withAuto (AutoComplete.navigateSuggestions AutoComplete.up) b
    | Tab | Enter =>
        if (0 <=? AutoComplete.selectedIndex st)%Z then takeSuggestion None b
        else match key with
             | Enter => if negb shiftKey then handleSubmit disabled b else b
             | _ => b
             end
    | Escape => withAuto AutoComplete.hideSuggestions b
    | OtherKey => b
    end
  else
    match key with
    | Enter => if negb shiftKey then handleSubmit disabled b else b
    | _ => b
    end.

Definition handleInputChange (now : Z) (value : string) (b : Box) : Box :=
  {| question := value;
     auto := AutoComplete.handleInputChange now value (auto b);
     submitted := submitted b |}.

Definition handleSuggestionClick (index : Z) (b : Box) : Box :=
  takeSuggestion (Some index) b.

(** [presses] of one key in a row, without Shift. *)
Definition press (key : Key) (presses : nat) (disabled : bool) (b : Box) : Box :=
  Nat.iter presses (handleKeyDown key false disabled) b.

End QuestionBox.

(* ===================================================================== *)
(** ** How the parts are wired: [app/page.tsx] and the two [fetch] targets *)
(* ===================================================================== *)

Module Page.

(** [callGeminiVision] as the route of [GeminiRoute] sees it. *)
Definition vision (key : option string)
    (gemini : GeminiLib.VisionRequest -> GeminiLib.VisionReply)
  : string -> string -> GeminiRoute.GeminiResponse :=
  fun image question => fst (GeminiLib.callGeminiVision key gemini image question).

(** The client's network when [/api/gemini] is served by the route and the
    route calls the model. *)
Definition backend (key : option string)
    (gemini : GeminiLib.VisionRequest -> GeminiLib.VisionReply)
    (images : string -> GeminiChat.ImageFetch) : GeminiChat.Network :=
  GeminiChat.viaRoute (vision key gemini) images.

(** The requests that reach the model for the traffic of a client call. *)
Definition modelRequests (key : option string)
    (gemini : GeminiLib.VisionRequest -> GeminiLib.VisionReply)
    (traffic : list GeminiChat.NetEvent) : list GeminiLib.VisionRequest :=
  flat_map (fun call => snd (GeminiLib.callGeminiVision key gemini (fst call) (snd call)))
           (GeminiChat.visionCalls (vision key gemini) traffic).

(** What [fetch('/api/suggestions')] resolves to when the suggestions route
    answers: status 400 for a missing [partial], the list otherwise. *)
Definition suggestionsReply (env : Suggestions.Env) (partial : string)
  : AutoComplete.Reply :=
  match Suggestions.POST env partial with
  | Some items => AutoComplete.Body true (Some items)
  | None => AutoComplete.NotOk
  end.

(** [<QuestionBox onSubmit={askQuestion} disabled={isLoading} />]: a submit
    in the box, each call of [onSubmit] it makes being a call of
    [askQuestion]. *)
Definition submitQuestion (net : GeminiChat.Network) (b : QuestionBox.Box)
    (h : GeminiChat.Hook) : QuestionBox.Box * GeminiChat.Hook * list GeminiChat.NetEvent :=
  let b' := QuestionBox.handleSubmit (GeminiChat.isLoading (GeminiChat.chatState h)) b in
  let calls := skipn (List.length (QuestionBox.submitted b)) (QuestionBox.submitted b') in
  let asked :=
    fold_left (fun (acc : GeminiChat.Hook * list GeminiChat.NetEvent) question =>
                 let (h', traffic) := GeminiChat.askQuestion net question (fst acc) in
                 (h', (snd acc ++ traffic)%list))
              calls (h, []) in
  (b', fst asked, snd asked).

End Page.

(* ===================================================================== *)
(** * Properties *)
(* ===================================================================== *)

(** ** Strings and lists *)

Example lower_what : JS.toLowerCase "What OBJ?" = "what obj?".
Proof. reflexivity. Qed.

Example trim_sample : JS.trim "  a b  " = "a b".
Proof. reflexivity. Qed.

Lemma length_append (s t : string) :
String.length (s ++ t) = String.length s + String.length t.
Proof.
induction s as [|c s IH]; simpl; [reflexivity | now rewrite IH].
Qed.

Lemma slice0_length {A : Type} (n : nat) (xs : list A) :
List.length (JS.slice0 n xs) <= n.
Proof. unfold JS.slice0. apply firstn_le_length. Qed.

Lemma slice0_nonempty {A : Type} (n : nat) (xs : list A) :
JS.slice0 (S n) xs <> [] <-> xs <> [].
Proof.
unfold JS.slice0. destruct xs; simpl; split; intro H; congruence.
Qed.

Lemma filter_nonempty {A : Type} (p : A -> bool) (xs : list A) :
filter p xs <> [] <-> existsb p xs = true.
Proof.
induction xs as [|x xs IH]; simpl.
- split; [congruence | discriminate].
- destruct (p x); simpl.
  + split; [reflexivity | discriminate].
  + exact IH.
Qed.

(** ** The tiered resolver *)

Section Resolver.

Import Suggestions.

Lemma scanPatterns_find (entries : list (string * list string)) (lower : string) :
  scanPatterns entries lower =
  option_map (fun entry => JS.slice0 3 (filter (completes lower) (snd entry)))
             (find (fun entry => keyMatches lower (fst entry)) entries).
Proof.
  induction entries as [|[key canned] rest IH]; simpl; [reflexivity|].
  destruct (keyMatches lower key); [reflexivity | exact IH].
Qed.

Lemma fallthrough (env : Env) (partial : string) :
  upstreamSilent env partial ->
  generateSuggestions env partial = getPatternBasedSuggestions partial.
Proof.
  intros [Hhf Hlocal]. unfold generateSuggestions.
  rewrite Hhf, Hlocal. reflexivity.
Qed.

Lemma offline_silent (partial : string) : upstreamSilent offline partial.
Proof. split; reflexivity. Qed.

Lemma pattern_tier_cap (partial : string) :
  List.length (getPatternBasedSuggestions partial) <= 3.
Proof.
  unfold getPatternBasedSuggestions.
  rewrite scanPatterns_find.
  destruct (find _ patterns); cbn [option_map]; apply slice0_length.
Qed.

Lemma defaults_nonempty (partial : string) :
  filter (fun s => (String.length s <=? 100)%nat) (defaultSuggestions partial) <> []
  <-> String.length partial <= 82.
Proof.
  rewrite filter_nonempty. unfold defaultSuggestions. simpl.
  rewrite !length_append. simpl.
  rewrite !orb_true_iff, !Nat.leb_le. intuition (discriminate || lia).
Qed.

Lemma pattern_tier_offers (partial : string) :
  getPatternBasedSuggestions partial <> [] <->
  match firstMatch (JS.toLowerCase partial) with
  | Some (_, canned) => existsb (completes (JS.toLowerCase partial)) canned = true
  | None => String.length partial <= 82
  end.
Proof.
  unfold getPatternBasedSuggestions, firstMatch.
  rewrite scanPatterns_find.
  destruct (find _ patterns) as [[key canned]|]; cbn [option_map snd].
  - rewrite slice0_nonempty. apply filter_nonempty.
  - rewrite slice0_nonempty. apply defaults_nonempty.
Qed.

(** C4, as stated, fails: ["what xyz"] has eight characters and reaches the
    pattern tier, whose ["what"] entry matches while none of its canned
    questions contains the input; the early [return] hands back the empty
    filter result. *)
Lemma what_xyz_offers_nothing :
  3 <= String.length "what xyz"
  /\ upstreamSilent offline "what xyz"
  /\ getPatternBasedSuggestions "what xyz" = []
  /\ generateSuggestions offline "what xyz" = []
  /\ ~ (forall partial, 3 <= String.length partial ->
          getPatternBasedSuggestions partial <> []).
Proof.
  split; [simpl; lia|]. split; [apply offline_silent|].
  split; [reflexivity|]. split; [reflexivity|].
  intro H. apply (H "what xyz"); [simpl; lia | reflexivity].
Qed.

(** C4 (amended): when the remote and local tiers yield nothing the resolver
    returns the pattern tier's list, which has at most 3 entries; it is
    non-empty exactly when the first table entry whose key occurs in the
    lower-cased input has a canned question containing that input, or, no key
    occurring, when the input has at most 82 characters; for ["what obj"]
    the list is non-empty and its first entry starts with ["what obj"]
    case-insensitively. *)
Theorem pattern_tier_fallthrough (env : Env) (partial : string) :
  upstreamSilent env partial ->
  let offered := generateSuggestions env partial in
  offered = getPatternBasedSuggestions partial
  /\ List.length offered <= 3
  /\ (offered <> [] <->
      match firstMatch (JS.toLowerCase partial) with
      | Some (_, canned) => existsb (completes (JS.toLowerCase partial)) canned = true
      | None => String.length partial <= 82
      end)
  /\ (partial = "what obj" ->
      offered = ["What objects are in this image?"]
      /\ JS.startsWith (JS.toLowerCase "What objects are in this image?")
                       (JS.toLowerCase partial) = true).
Proof.
  intros Hsilent offered. subst offered.
  rewrite (fallthrough env partial Hsilent).
  split; [reflexivity|].
  split; [apply pattern_tier_cap|].
  split; [apply pattern_tier_offers|].
  intros ->. split; reflexivity.
Qed.

Lemma pattern_tier_fallthrough_witness :
  upstreamSilent offline "what obj"
  /\ generateSuggestions offline "what obj" = ["What objects are in this image?"].
Proof.
  split; [apply offline_silent|].
  destruct (pattern_tier_fallthrough offline "what obj" (offline_silent _))
    as (_ & _ & _ & Hwhat).
  exact (proj1 (Hwhat eq_refl)).
Defined.

(** C9: ["xyz123"] contains no table key, and the pattern tier returns
    exactly 3 completions for it, the trimmed input followed by each of the
    fixed suffixes, each beginning with the input and of at most 100
    characters; with both upstream tiers silent that list is what
    [generateSuggestions] and the route return. *)
Theorem resolve_xyz123 :
  firstMatch (JS.toLowerCase "xyz123") = None
  /\ getPatternBasedSuggestions "xyz123"
     = map (fun suffix => JS.trim "xyz123" ++ suffix) suffixes
  /\ List.length (getPatternBasedSuggestions "xyz123") = 3
  /\ Forall (fun s => JS.startsWith s (JS.trim "xyz123") = true
                      /\ String.length s <= 100)
            (getPatternBasedSuggestions "xyz123")
  /\ (forall env, upstreamSilent env "xyz123" ->
        generateSuggestions env "xyz123" = getPatternBasedSuggestions "xyz123"
        /\ POST env "xyz123" = Some (getPatternBasedSuggestions "xyz123")).
Proof.
  split; [reflexivity|]. split; [reflexivity|]. split; [reflexivity|].
  split; [repeat constructor; simpl; lia|].
  intros env Hsilent. unfold POST. cbn [JS.truthy negb String.eqb String.length Nat.ltb Nat.leb].
  rewrite (fallthrough env "xyz123" Hsilent). split; reflexivity.
Qed.

Lemma resolve_xyz123_witness :
  upstreamSilent offline "xyz123"
  /\ generateSuggestions offline "xyz123" =
     ["xyz123 do you see in this image?"; "xyz123 is the main focus here?";
      "xyz123 can you identify?"].
Proof.
  split; [apply offline_silent|].
  destruct resolve_xyz123 as (_ & _ & _ & _ & Henv).
  exact (proj1 (Henv offline (offline_silent _))).
Defined.

(** C10: whatever the inference service answers, one call of the remote tier
    yields at most one candidate, and that candidate is the trimmed
    [generated_text] of the first element of the response, longer than the
    input and of at most 100 characters; so it never supplies 2 or 3. *)
Theorem remote_tier_single_candidate (partial : string) (reply : HFReply) :
  List.length (callHuggingFaceModel partial reply) <= 1
  /\ forall s, In s (callHuggingFaceModel partial reply) ->
       exists text rest,
         reply = HFData ({| generated_text := Some text |} :: rest)
         /\ s = JS.trim text
         /\ String.length partial < String.length s <= 100.
Proof.
  assert (Hnone : Datatypes.length (@nil string) <= 1
                  /\ forall s, In s (@nil string) ->
                       exists text rest,
                         reply = HFData ({| generated_text := Some text |} :: rest)
                         /\ s = JS.trim text
                         /\ String.length partial < String.length s <= 100)
    by (split; [simpl; lia | intros s []]).
  destruct reply as [| status | | data]; try exact Hnone.
  destruct data as [|[[text|]] rest]; try exact Hnone.
  unfold callHuggingFaceModel.
  destruct (JS.truthy text); try exact Hnone.
  cbn [filter JS.slice0].
  destruct (String.length partial <? String.length (JS.trim text))%nat eqn:Hlong;
    destruct (String.length (JS.trim text) <=? 100)%nat eqn:Hcap;
    cbn [andb firstn]; try exact Hnone.
  apply Nat.ltb_lt in Hlong. apply Nat.leb_le in Hcap.
  split; [simpl; lia|].
  intros s [<-|[]]. exists text, rest. repeat split; assumption.
Qed.

Lemma remote_tier_single_candidate_witness :
  callHuggingFaceModel "What is" threeGenerated = ["What is shown in the picture?"]
  /\ exists text rest,
       threeGenerated = HFData ({| generated_text := Some text |} :: rest)
       /\ "What is shown in the picture?" = JS.trim text
       /\ String.length "What is" < String.length "What is shown in the picture?" <= 100.
Proof.
  split; [reflexivity|].
  destruct (remote_tier_single_candidate "What is" threeGenerated) as [_ Hin].
  apply Hin. left. reflexivity.
Defined.

End Resolver.

(** ** The selection state machine *)

Section Selection.

Import AutoComplete.
Open Scope Z_scope.

Variable st : AutoCompleteState.

Let n := Z.of_nat (List.length (suggestions st)).
Let i := selectedIndex st.

Lemma navigate_hidden (d : Direction) :
  showSuggestions st = false \/ suggestions st = [] ->
  navigateSuggestions d st = st.
Proof.
  unfold navigateSuggestions.
  intros [-> | ->]; [reflexivity | simpl; now rewrite orb_true_r].
Qed.

Hypothesis Hvisible : showSuggestions st = true.
Hypothesis Hitems : suggestions st <> [].

Lemma items_positive : 0 < n.
Proof.
  unfold n. destruct (suggestions st); [congruence | simpl; lia].
Qed.

Lemma guard_open :
  negb (showSuggestions st) || (List.length (suggestions st) =? 0)%nat = false.
Proof.
  rewrite Hvisible. simpl. apply Nat.eqb_neq.
  destruct (suggestions st); [congruence | simpl; lia].
Qed.

Lemma navigate_down_index :
  selectedIndex (navigateSuggestions down st) = if i <? n - 1 then i + 1 else -1.
Proof. unfold navigateSuggestions. rewrite guard_open. reflexivity. Qed.

Lemma navigate_up_index :
  selectedIndex (navigateSuggestions up st) = if i >? -1 then i - 1 else n - 1.
Proof. unfold navigateSuggestions. rewrite guard_open. reflexivity. Qed.

Lemma navigate_frame (d : Direction) :
  suggestions (navigateSuggestions d st) = suggestions st
  /\ isLoading (navigateSuggestions d st) = isLoading st
  /\ showSuggestions (navigateSuggestions d st) = showSuggestions st.
Proof.
  unfold navigateSuggestions. rewrite guard_open. repeat split.
Qed.

End Selection.

Section SelectionCycle.

Import AutoComplete.
Open Scope Z_scope.

Lemma navigate_offering (d : Direction) (st : AutoCompleteState) :
  offering st -> offering (navigateSuggestions d st)
                 /\ suggestions (navigateSuggestions d st) = suggestions st.
Proof.
  intros [Hv Hi].
  destruct (navigate_frame st Hv Hi d) as (Hs & _ & Hshow).
  unfold offering. rewrite Hs, Hshow. auto.
Qed.

Lemma navigate_loading (d : Direction) (st : AutoCompleteState) :
  isLoading (navigateSuggestions d st) = isLoading st.
Proof.
  unfold navigateSuggestions. destruct (_ || _); reflexivity.
Qed.

Lemma iter_offering (d : Direction) (st : AutoCompleteState) (k : nat) :
  offering st ->
  offering (Nat.iter k (navigateSuggestions d) st)
  /\ suggestions (Nat.iter k (navigateSuggestions d) st) = suggestions st
  /\ isLoading (Nat.iter k (navigateSuggestions d) st) = isLoading st.
Proof.
  intros Hoff. induction k as [|k (IHo & IHs & IHl)]; [simpl; auto|].
  rewrite Nat.iter_succ.
  destruct (navigate_offering d _ IHo) as [Ho Hs].
  rewrite navigate_loading.
  split; [exact Ho | split; congruence].
Qed.

Lemma state_ext (a b : AutoCompleteState) :
  suggestions a = suggestions b -> isLoading a = isLoading b ->
  selectedIndex a = selectedIndex b -> showSuggestions a = showSuggestions b ->
  a = b.
Proof.
  destruct a, b; simpl; intros; subst; reflexivity.
Qed.

(** One step down is [+1] on the cycle of the [n + 1] positions, one step
    up is [-1], positions being counted from the sentinel. *)
Lemma down_mod (st : AutoCompleteState) :
  offering st -> inRange st ->
  selectedIndex (navigateSuggestions down st) =
  (selectedIndex st + 2) mod (Z.of_nat (List.length (suggestions st)) + 1) - 1.
Proof.
  intros [Hv Hi] Hr. unfold inRange in Hr.
  rewrite (navigate_down_index st Hv Hi).
  destruct (Z.ltb_spec (selectedIndex st) (Z.of_nat (List.length (suggestions st)) - 1)).
  - rewrite Z.mod_small; lia.
  - replace (selectedIndex st + 2)
      with (Z.of_nat (List.length (suggestions st)) + 1) by lia.
    rewrite Z.mod_same; lia.
Qed.

Lemma up_mod (st : AutoCompleteState) :
  offering st -> inRange st ->
  selectedIndex (navigateSuggestions up st) =
  (selectedIndex st) mod (Z.of_nat (List.length (suggestions st)) + 1) - 1.
Proof.
  intros [Hv Hi] Hr. unfold inRange in Hr.
  rewrite (navigate_up_index st Hv Hi).
  destruct (Z.gtb_spec (selectedIndex st) (-1)).
  - rewrite Z.mod_small; lia.
  - replace (selectedIndex st) with (-1) by lia.
    assert (Hitems : 0 < Z.of_nat (List.length (suggestions st)))
      by (destruct (suggestions st); [congruence | simpl; lia]).
    rewrite <- (Z.mod_unique (-1) (Z.of_nat (List.length (suggestions st)) + 1) (-1)
                  (Z.of_nat (List.length (suggestions st)))); lia.
Qed.

Lemma iter_down_index (st : AutoCompleteState) (k : nat) :
  offering st -> inRange st ->
  selectedIndex (Nat.iter k (navigateSuggestions down) st) =
  (selectedIndex st + 1 + Z.of_nat k) mod (Z.of_nat (List.length (suggestions st)) + 1) - 1.
Proof.
  intros Hoff Hr. unfold inRange in Hr.
  induction k as [|k IH].
  - simpl. rewrite Z.add_0_r, Z.mod_small; lia.
  - rewrite Nat.iter_succ.
    destruct (iter_offering down st k Hoff) as (Ho & Hs & _).
    rewrite down_mod; [| exact Ho |].
    + rewrite Hs, IH.
      set (m := Z.of_nat (List.length (suggestions st)) + 1).
      replace ((selectedIndex st + 1 + Z.of_nat k) mod m - 1 + 2)
        with ((selectedIndex st + 1 + Z.of_nat k) mod m + 1) by lia.
      rewrite Zplus_mod_idemp_l. f_equal. f_equal. lia.
    + unfold inRange. rewrite Hs, IH.
      pose proof (Z.mod_pos_bound (selectedIndex st + 1 + Z.of_nat k)
                    (Z.of_nat (List.length (suggestions st)) + 1)). lia.
Qed.

Lemma iter_up_index (st : AutoCompleteState) (k : nat) :
  offering st -> inRange st ->
  selectedIndex (Nat.iter k (navigateSuggestions up) st) =
  (selectedIndex st + 1 - Z.of_nat k) mod (Z.of_nat (List.length (suggestions st)) + 1) - 1.
Proof.
  intros Hoff Hr. unfold inRange in Hr.
  induction k as [|k IH].
  - simpl. rewrite Z.sub_0_r, Z.mod_small; lia.
  - rewrite Nat.iter_succ.
    destruct (iter_offering up st k Hoff) as (Ho & Hs & _).
    rewrite up_mod; [| exact Ho |].
    + rewrite Hs, IH.
      set (m := Z.of_nat (List.length (suggestions st)) + 1).
      rewrite Zminus_mod_idemp_l. f_equal. f_equal. lia.
    + unfold inRange. rewrite Hs, IH.
      pose proof (Z.mod_pos_bound (selectedIndex st + 1 - Z.of_nat k)
                    (Z.of_nat (List.length (suggestions st)) + 1)). lia.
Qed.

(** C7: on a visible, non-empty list of length [n] with the selection in
    [{-1, ..., n-1}], down goes from the sentinel to 0, from [i < n-1] to
    [i+1] and from [n-1] back to the sentinel; up is the mirror; [k] steps
    in one direction move [k] places round the cycle of the [n+1] positions,
    so [n+1] steps return to the start; only [selectedIndex] changes. On an
    empty or hidden list navigation changes nothing. *)
Theorem navigation_cyclic (st : AutoCompleteState) :
  (showSuggestions st = false \/ suggestions st = [] ->
   forall d, navigateSuggestions d st = st)
  /\ (showSuggestions st = true -> suggestions st <> [] -> inRange st ->
      let n := Z.of_nat (List.length (suggestions st)) in
      let i := selectedIndex st in
      selectedIndex (navigateSuggestions down st) = (if i =? n - 1 then -1 else i + 1)
      /\ selectedIndex (navigateSuggestions up st) = (if i =? -1 then n - 1 else i - 1)
      /\ (forall d, inRange (navigateSuggestions d st)
                    /\ suggestions (navigateSuggestions d st) = suggestions st
                    /\ isLoading (navigateSuggestions d st) = isLoading st
                    /\ showSuggestions (navigateSuggestions d st) = true)
      /\ navigateSuggestions up (navigateSuggestions down st) = st
      /\ navigateSuggestions down (navigateSuggestions up st) = st
      /\ (forall k, selectedIndex (Nat.iter k (navigateSuggestions down) st)
                    = (i + 1 + Z.of_nat k) mod (n + 1) - 1)
      /\ (forall k, selectedIndex (Nat.iter k (navigateSuggestions up) st)
                    = (i + 1 - Z.of_nat k) mod (n + 1) - 1)
      /\ Nat.iter (S (List.length (suggestions st))) (navigateSuggestions down) st = st
      /\ Nat.iter (S (List.length (suggestions st))) (navigateSuggestions up) st = st).
Proof.
  split.
  { intros Hidle d. now apply navigate_hidden. }
  intros Hv Hi Hr n i.
  assert (Hoff : offering st) by (split; assumption).
  assert (Hn : 0 < n) by (apply items_positive; assumption).
  pose proof Hr as Hr'. unfold inRange in Hr'. fold n i in Hr'.
  assert (Hdown : selectedIndex (navigateSuggestions down st)
                  = if i =? n - 1 then -1 else i + 1).
  { rewrite (navigate_down_index st Hv Hi). fold n i.
    destruct (Z.ltb_spec i (n - 1)), (Z.eqb_spec i (n - 1)); lia. }
  assert (Hup : selectedIndex (navigateSuggestions up st)
                = if i =? -1 then n - 1 else i - 1).
  { rewrite (navigate_up_index st Hv Hi). fold n i.
    destruct (Z.gtb_spec i (-1)), (Z.eqb_spec i (-1)); lia. }
  assert (Hframe : forall d, inRange (navigateSuggestions d st)
                    /\ suggestions (navigateSuggestions d st) = suggestions st
                    /\ isLoading (navigateSuggestions d st) = isLoading st
                    /\ showSuggestions (navigateSuggestions d st) = true).
  { intro d. destruct (navigate_frame st Hv Hi d) as (Hs & Hl & Hshow).
    split; [| repeat split; congruence].
    unfold inRange. rewrite Hs. fold n.
    destruct d; rewrite ?Hdown, ?Hup;
      destruct (Z.eqb_spec i (n - 1)), (Z.eqb_spec i (-1)); lia. }
  split; [exact Hdown|]. split; [exact Hup|]. split; [exact Hframe|].
  split.
  { destruct (Hframe down) as (Hrd & Hsd & Hld & Hvd).
    assert (Hid : suggestions (navigateSuggestions down st) <> []) by congruence.
    destruct (navigate_frame _ Hvd Hid up) as (Hs & Hl & Hshow).
    apply state_ext; try congruence.
    rewrite (navigate_up_index _ Hvd Hid), Hsd, Hdown. fold n i.
    destruct (Z.eqb_spec i (n - 1));
      match goal with |- context [?a >? ?b] => destruct (Z.gtb_spec a b) end; lia. }
  split.
  { destruct (Hframe up) as (Hru & Hsu & Hlu & Hvu).
    assert (Hiu : suggestions (navigateSuggestions up st) <> []) by congruence.
    destruct (navigate_frame _ Hvu Hiu down) as (Hs & Hl & Hshow).
    apply state_ext; try congruence.
    rewrite (navigate_down_index _ Hvu Hiu), Hsu, Hup. fold n i.
    destruct (Z.eqb_spec i (-1));
      match goal with |- context [?a <? ?b] => destruct (Z.ltb_spec a b) end; lia. }
  split; [intro k; apply iter_down_index; assumption|].
  split; [intro k; apply iter_up_index; assumption|].
  split.
  - destruct (iter_offering down st (S (List.length (suggestions st))) Hoff)
      as ((Hv' & _) & Hs' & Hl').
    apply state_ext; try congruence.
    rewrite iter_down_index by assumption. fold n i.
    replace (i + 1 + Z.of_nat (S (List.length (suggestions st))))
      with (i + 1 + 1 * (n + 1)) by (unfold n; lia).
    rewrite Z.mod_add by lia. rewrite Z.mod_small; lia.
  - destruct (iter_offering up st (S (List.length (suggestions st))) Hoff)
      as ((Hv' & _) & Hs' & Hl').
    apply state_ext; try congruence.
    rewrite iter_up_index by assumption. fold n i.
    replace (i + 1 - Z.of_nat (S (List.length (suggestions st))))
      with (i + 1 + (-1) * (n + 1)) by (unfold n; lia).
    rewrite Z.mod_add by lia. rewrite Z.mod_small; lia.
Qed.

Lemma navigation_cyclic_witness :
  selectedIndex (navigateSuggestions down lastSelected) = -1
  /\ selectedIndex (navigateSuggestions up (navigateSuggestions down lastSelected)) = 2.
Proof.
  assert (Hshown : showSuggestions lastSelected = true) by reflexivity.
  assert (Hitems : suggestions lastSelected <> []) by discriminate.
  assert (Hrange : inRange lastSelected) by (unfold inRange; simpl; lia).
  destruct (navigation_cyclic lastSelected) as [_ Hcycle].
  destruct (Hcycle Hshown Hitems Hrange) as (Hdown & _ & _ & Hback & _).
  split; [exact Hdown | now rewrite Hback].
Defined.

End SelectionCycle.

(** ** Debounce and cancellation *)

Section Controller.

Import AutoComplete.

Lemma hook_ext (a b : Hook) :
  state a = state b -> debounceRef a = debounceRef b ->
  abortControllerRef a = abortControllerRef b ->
  inFlight a = inFlight b -> sent a = sent b -> a = b.
Proof. destruct a, b; simpl; intros; subst; reflexivity. Qed.

Lemma singleFlight_mount : singleFlight mount.
Proof. intros r []. Qed.

(** Under [singleFlight], aborting the current controller leaves nothing in
    flight. *)
Lemma abortCurrent_spec (h : Hook) :
  singleFlight h ->
  let h1 := fst (abortCurrent h) in
  inFlight h1 = [] /\ state h1 = state h /\ sent h1 = sent h
  /\ debounceRef h1 = debounceRef h
  /\ snd (abortCurrent h) = negb (Nat.eqb (List.length (inFlight h)) 0).
Proof.
  intros Hsingle. unfold abortCurrent.
  destruct (abortControllerRef h) as [c|] eqn:Hc.
  - assert (Hall : forall r, In r (inFlight h) -> isRequest c r = true).
    { intros r Hr. pose proof (Hsingle r Hr) as Hr'. rewrite Hc in Hr'.
      injection Hr' as Hr'. subst c. unfold isRequest. apply Nat.eqb_refl. }
    destruct (inFlight h) as [|r rs] eqn:Hin; simpl.
    + repeat split; assumption.
    + rewrite (Hall r (or_introl eq_refl)). simpl.
      repeat split.
      clear Hin. induction rs as [|r' rs IH]; simpl; [reflexivity|].
      rewrite (Hall r' (or_intror (or_introl eq_refl))). simpl.
      apply IH. intros r'' [<-|Hr'']; apply Hall; simpl; auto.
  - destruct (inFlight h) as [|r rs] eqn:Hin; simpl.
    + repeat split; assumption.
    + pose proof (Hsingle r) as Hr. rewrite Hin, Hc in Hr.
      specialize (Hr (or_introl eq_refl)). discriminate.
Qed.

(** What one run of [fetchSuggestions] does to a hook with at most one
    call in flight. *)
Lemma fetchSuggestions_spec (text : string) (h : Hook) :
  singleFlight h ->
  let h' := fetchSuggestions text h in
  let request := {| requestId := List.length (sent h); partial := JS.trim text |} in
  (if tooShort text
   then sent h' = sent h /\ inFlight h' = [] /\ state h' = emptied (state h)
   else sent h' = (sent h ++ [request])%list /\ inFlight h' = [request]
        /\ abortControllerRef h' = Some (requestId request)
        /\ state h' = if Nat.eqb (List.length (inFlight h)) 0
                      then awaiting (state h)
                      else emptied (awaiting (state h)))
  /\ debounceRef h' = debounceRef h.
Proof.
  intros Hsingle.
  destruct (abortCurrent_spec h Hsingle) as (Hin & Hst & Hsent & Hdeb & Hwoken).
  unfold fetchSuggestions.
  destruct (abortCurrent h) as [h1 woken]. simpl in Hin, Hst, Hsent, Hdeb, Hwoken.
  subst woken.
  destruct (tooShort text); destruct (Nat.eqb (List.length (inFlight h)) 0);
    cbn [negb withState state sent inFlight debounceRef abortControllerRef settle];
    rewrite ?Hin, ?Hst, ?Hsent, ?Hdeb; repeat split.
Qed.

Lemma singleFlight_fetch (text : string) (h : Hook) :
  singleFlight h -> singleFlight (fetchSuggestions text h).
Proof.
  intros Hsingle.
  pose proof (fetchSuggestions_spec text h Hsingle) as [Hspec _].
  destruct (tooShort text).
  - destruct Hspec as (_ & Hin & _). intros r Hr. rewrite Hin in Hr. destruct Hr.
  - destruct Hspec as (_ & Hin & Hc & _). intros r Hr. rewrite Hin in Hr.
    destruct Hr as [<-|[]]. exact Hc.
Qed.

Lemma singleFlight_frame (h h' : Hook) :
  abortControllerRef h' = abortControllerRef h ->
  (forall r, In r (inFlight h') -> In r (inFlight h)) ->
  singleFlight h -> singleFlight h'.
Proof.
  intros Hc Hsub Hsingle r Hr. rewrite Hc. apply Hsingle, Hsub, Hr.
Qed.

Lemma singleFlight_elapse (now : Z) (h : Hook) :
  singleFlight h -> singleFlight (elapse now h).
Proof.
  intros Hsingle. unfold elapse.
  destruct (debounceRef h) as [timer|]; [|exact Hsingle].
  destruct (deadline timer <=? now)%Z; [|exact Hsingle].
  apply singleFlight_fetch.
  eapply singleFlight_frame; [| |exact Hsingle]; simpl; auto.
Qed.

Lemma singleFlight_act (a : Action) (h : Hook) :
  singleFlight h -> singleFlight (act a h).
Proof.
  intros Hsingle. destruct a; simpl.
  - eapply singleFlight_frame; [| |apply (singleFlight_elapse now h Hsingle)];
      simpl; auto.
  - now apply singleFlight_elapse.
  - unfold deliver. destruct (existsb _ _); [|exact Hsingle].
    eapply singleFlight_frame; [| |exact Hsingle]; simpl; [reflexivity|].
    intros r Hr. apply filter_In in Hr. tauto.
  - eapply singleFlight_frame; [| |exact Hsingle]; simpl; auto.
  - eapply singleFlight_frame; [| |exact Hsingle]; simpl; auto.
  - eapply singleFlight_frame; [| |exact Hsingle]; simpl; auto.
  - eapply singleFlight_frame; [| |exact Hsingle]; simpl; auto.
Qed.

(** Every hook reached from [mount] has at most one call in flight. *)
Lemma singleFlight_run (actions : list Action) (h : Hook) :
  singleFlight h -> singleFlight (run actions h).
Proof.
  revert h. induction actions as [|a actions IH]; intros h Hsingle; simpl.
  - exact Hsingle.
  - apply IH, singleFlight_act, Hsingle.
Qed.

(** During a burst the pending timer is only ever replaced: no request is
    sent, and the timer left over is the one of the last edit. *)
Lemma burst_quiet (actions : list Action) (t : Z) (text : string) (h : Hook) :
  burst t actions ->
  debounceRef h = Some {| deadline := (t + 300)%Z; pendingText := text |} ->
  sent (run actions h) = sent h
  /\ debounceRef (run actions h)
     = Some {| deadline := (fst (lastEdit (t, text) actions) + 300)%Z;
               pendingText := snd (lastEdit (t, text) actions) |}.
Proof.
  revert t text h.
  induction actions as [|a actions IH]; intros t text h Hburst Htimer.
  - simpl. auto.
  - change (run (a :: actions) h) with (run actions (act a h)).
    assert (Hidle : forall now, (now < t + 300)%Z -> elapse now h = h).
    { intros now Hnow. unfold elapse. rewrite Htimer. simpl.
      destruct (Z.leb_spec (t + 300) now); [lia | reflexivity]. }
    destruct a as [now text' | now | id reply | d | index | |];
      cbn [burst lastEdit] in *.
    + destruct Hburst as [Hgap Hburst].
      destruct (IH now text' (act (Edit now text') h) Hburst eq_refl) as [Hs Hd].
      rewrite Hs, Hd. simpl. rewrite (Hidle now) by lia. auto.
    + destruct Hburst as [Hgap Hburst]. simpl. rewrite (Hidle now Hgap).
      apply IH; assumption.
    + assert (Hkeep : sent (act (Arrive id reply) h) = sent h
                      /\ debounceRef (act (Arrive id reply) h) = debounceRef h).
      { simpl. unfold deliver. destruct (existsb _ _); auto. }
      destruct Hkeep as [Hs Hd].
      destruct (IH t text (act (Arrive id reply) h) Hburst) as [Hs' Hd'];
        [congruence|]. rewrite Hs', Hd'. auto.
    + destruct (IH t text (act (Navigate d) h) Hburst Htimer) as [Hs' Hd'].
      rewrite Hs', Hd'. auto.
    + destruct (IH t text (act (Select index) h) Hburst Htimer) as [Hs' Hd'].
      rewrite Hs', Hd'. auto.
    + destruct (IH t text (act Hide h) Hburst Htimer) as [Hs' Hd'].
      rewrite Hs', Hd'. auto.
    + destruct (IH t text (act Clear h) Hburst Htimer) as [Hs' Hd'].
      rewrite Hs', Hd'. auto.
Qed.

Lemma deliver_spec (id : nat) (reply : Reply) (h : Hook) (request : Request) :
  inFlight h = [request] ->
  (id <> requestId request -> deliver id reply h = h)
  /\ state (deliver (requestId request) reply h) = settle reply (state h)
  /\ inFlight (deliver (requestId request) reply h) = [].
Proof.
  intros Hin. unfold deliver. rewrite Hin. simpl. unfold isRequest.
  rewrite Nat.eqb_refl. simpl. split; [|auto].
  intros Hneq. destruct (Nat.eqb_spec (requestId request) id); [congruence|reflexivity].
Qed.

Lemma deliver_idle (id : nat) (reply : Reply) (h : Hook) :
  inFlight h = [] -> deliver id reply h = h.
Proof. intros Hin. unfold deliver. now rewrite Hin. Qed.

(** X22: take any hook with at most one call in flight, an edit at [t0] and
    a burst of further actions in which each edit follows the previous one
    by less than 300 ms. The burst itself sends nothing. Once 300 ms have
    passed after its last edit, exactly one resolution runs, for the text
    of that last edit (none if that text is too short); the request it
    sends is then the only call in flight, every earlier call having been
    cancelled (its [catch] block has emptied the items by then), so a
    reply for any other request changes nothing and only the reply to this
    request is applied to the state. *)
Theorem burst_single_resolution
    (h : Hook) (t0 : Z) (text0 : string) (actions : list Action) (later : Z) :
  singleFlight h ->
  burst t0 actions ->
  (fst (lastEdit (t0, text0) actions) + 300 <= later)%Z ->
  let final := snd (lastEdit (t0, text0) actions) in
  let before := elapse t0 h in
  let during := run (Edit t0 text0 :: actions) h in
  let after := elapse later during in
  let request := {| requestId := List.length (sent before);
                    partial := JS.trim final |} in
  sent during = sent before
  /\ sent after = (sent before ++ (if tooShort final then [] else [request]))%list
  /\ inFlight after = (if tooShort final then [] else [request])
  /\ state after = (if tooShort final then emptied (state during)
                    else if Nat.eqb (List.length (inFlight during)) 0
                         then awaiting (state during)
                         else emptied (awaiting (state during)))
  /\ (forall id reply,
        tooShort final = true \/ id <> requestId request ->
        deliver id reply after = after)
  /\ (tooShort final = false ->
      forall reply,
        state (deliver (requestId request) reply after) = settle reply (state after)).
Proof.
  intros Hsingle Hburst Hlater final before during after request.
  assert (Hduring : during = run actions (getSuggestions t0 text0 before))
    by reflexivity.
  destruct (burst_quiet actions t0 text0 (getSuggestions t0 text0 before)
              Hburst eq_refl) as [Hsent Htimer].
  rewrite <- Hduring in Hsent, Htimer. simpl in Hsent.
  assert (Hsf : singleFlight during).
  { unfold during. apply singleFlight_run, Hsingle. }
  set (armed := {| state := state during; debounceRef := None;
                   abortControllerRef := abortControllerRef during;
                   inFlight := inFlight during; sent := sent during |}).
  assert (Hafter : after = fetchSuggestions final armed).
  { unfold after, elapse. rewrite Htimer. simpl.
    destruct (Z.leb_spec (fst (lastEdit (t0, text0) actions) + 300) later);
      [reflexivity | lia]. }
  assert (Harmed : singleFlight armed).
  { eapply singleFlight_frame; [| |exact Hsf]; simpl; auto. }
  pose proof (fetchSuggestions_spec final armed Harmed) as [Hspec _].
  rewrite <- Hafter in Hspec. simpl in Hspec. rewrite Hsent in Hspec.
  fold request in Hspec.
  split; [exact Hsent|].
  destruct (tooShort final) eqn:Hshort.
  - destruct Hspec as (Hs & Hin & Hst).
    rewrite Hs, app_nil_r. repeat split; auto.
    + intros id reply _. now apply deliver_idle.
    + discriminate.
  - destruct Hspec as (Hs & Hin & _ & Hst).
    repeat split; auto.
    + intros id reply [Habs|Hneq]; [discriminate|].
      now apply (deliver_spec id reply after request Hin).
    + intros _ reply. now apply (deliver_spec 0 reply after request Hin).
Qed.

Lemma burst_single_resolution_witness :
  inFlight shown = [{| requestId := 1; partial := "what c" |}]
  /\ sent (elapse 2600 (run [Edit 2000 "what co"; Edit 2100 "what col";
                             Navigate down; Edit 2250 "what colo"] shown))
     = [{| requestId := 0; partial := "what" |};
        {| requestId := 1; partial := "what c" |};
        {| requestId := 2; partial := "what colo" |}]
  /\ inFlight (elapse 2600 (run [Edit 2000 "what co"; Edit 2100 "what col";
                                 Navigate down; Edit 2250 "what colo"] shown))
     = [{| requestId := 2; partial := "what colo" |}]
  /\ deliver 1 (Body true (Some threeItems))
       (elapse 2600 (run [Edit 2000 "what co"; Edit 2100 "what col";
                          Navigate down; Edit 2250 "what colo"] shown))
     = elapse 2600 (run [Edit 2000 "what co"; Edit 2100 "what col";
                         Navigate down; Edit 2250 "what colo"] shown).
Proof.
  assert (Hsingle : singleFlight shown)
    by (apply singleFlight_run, singleFlight_mount).
  assert (Hburst : burst 2000 [Edit 2100 "what col"; Navigate down;
                               Edit 2250 "what colo"]) by (simpl; lia).
  assert (Hlater : (fst (lastEdit (2000%Z, "what co")
                           [Edit 2100 "what col"; Navigate down;
                            Edit 2250 "what colo"]) + 300 <= 2600)%Z)
    by (simpl; lia).
  destruct (burst_single_resolution shown 2000 "what co" _ 2600
              Hsingle Hburst Hlater) as (_ & Hsent & Hin & _ & Hother & _).
  split; [reflexivity|]. split; [exact Hsent|]. split; [exact Hin|].
  apply Hother. right. discriminate.
Defined.

(** C2 fails where a call is cancelled. In [shown] three items are on
    display and the request for ["what c"] is in flight and loading. The
    next edit, ["what co"], has its debounce run: [fetchSuggestions] aborts
    the call in flight, marks the state as loading and sends the new request;
    the [catch] block of the aborted call then runs and writes over that
    state: the items are emptied and [isLoading] is false while the new
    request is in flight. Had the earlier call already been answered, the
    same edit would leave the items on display and [isLoading] true. *)
Lemma cancelled_call_overwrites_loading :
  inFlight shown = [{| requestId := 1; partial := "what c" |}]
  /\ state shown = {| suggestions := threeItems; isLoading := true;
                      selectedIndex := -1; showSuggestions := true |}
  /\ run [Edit 2000 "what co"; Tick 2300] shown
     = {| state := {| suggestions := []; isLoading := false;
                      selectedIndex := -1; showSuggestions := false |};
          debounceRef := None;
          abortControllerRef := Some 2;
          inFlight := [{| requestId := 2; partial := "what co" |}];
          sent := [{| requestId := 0; partial := "what" |};
                   {| requestId := 1; partial := "what c" |};
                   {| requestId := 2; partial := "what co" |}] |}
  /\ state (run [Arrive 1 (Body true (Some threeItems));
                 Edit 2000 "what co"; Tick 2300] shown)
     = {| suggestions := threeItems; isLoading := true;
          selectedIndex := -1; showSuggestions := true |}
  /\ inFlight (run [Arrive 1 (Body true (Some threeItems));
                    Edit 2000 "what co"; Tick 2300] shown)
     = [{| requestId := 2; partial := "what co" |}].
Proof. repeat split. Qed.

(** Which replies reset the selection. *)
Lemma settle_selectedIndex (reply : Reply) (prev : AutoCompleteState) :
  selectedIndex (settle reply prev) =
  match reply with
  | Body true (Some _) => (-1)%Z
  | _ => selectedIndex prev
  end.
Proof.
  destruct reply as [| | |[] [items|]]; reflexivity.
Qed.

(** C5 fails on the failure paths. In [navigated] the second of three items
    is selected and a request is in flight; when that request fails (by
    status, transport, body, or an unsuccessful answer) the items are
    emptied while [selectedIndex] stays 1. Only the success branch, also
    with an empty list, resets it to -1. *)
Lemma failed_resolution_keeps_selection :
  selectedIndex (state navigated) = 1%Z
  /\ inFlight navigated = [{| requestId := 1; partial := "what c" |}]
  /\ state (act (Arrive 1 NotOk) navigated)
     = {| suggestions := []; isLoading := false; selectedIndex := 1;
          showSuggestions := false |}
  /\ state (act (Arrive 1 Rejected) navigated)
     = state (act (Arrive 1 NotOk) navigated)
  /\ state (act (Arrive 1 BadBody) navigated)
     = state (act (Arrive 1 NotOk) navigated)
  /\ state (act (Arrive 1 (Body false None)) navigated)
     = state (act (Arrive 1 NotOk) navigated)
  /\ selectedIndex (state (act (Arrive 1 (Body true (Some []))) navigated)) = (-1)%Z
  /\ selectedIndex (state (act (Arrive 1 (Body true (Some threeItems))) navigated))
     = (-1)%Z.
Proof. repeat split. Qed.

(** C6, as stated, fails: in [shown] three items are on display, the list
    is visible, a resolution is loading and its request is in flight; the
    two-character edit ["wh"] changes none of that at the time it is made. *)
Lemma short_text_not_immediate :
  String.length "wh" < 3
  /\ suggestions (state shown) = threeItems
  /\ state (handleInputChange 2000 "wh" shown) = state shown
  /\ suggestions (state (handleInputChange 2000 "wh" shown)) <> []
  /\ showSuggestions (state (handleInputChange 2000 "wh" shown)) = true
  /\ isLoading (state (handleInputChange 2000 "wh" shown)) = true
  /\ inFlight (handleInputChange 2000 "wh" shown)
     = [{| requestId := 1; partial := "what c" |}].
Proof.
  split; [simpl; lia|]. repeat split. discriminate.
Qed.

(** C6 (amended): for text shorter than 3 characters [getSuggestions] itself
    only restarts the 300 ms timer, leaving state and requests as they are;
    when that timer runs, [fetchSuggestions] cancels the call in flight,
    empties the items, sets [showSuggestions] and [isLoading] to false, and
    sends no request. *)
Theorem short_text_cleared_after_debounce
    (h : Hook) (now later : Z) (text : string) :
  singleFlight h ->
  String.length text < 3 ->
  (now + 300 <= later)%Z ->
  let scheduled := getSuggestions now text h in
  let fired := elapse later scheduled in
  (state scheduled = state h /\ inFlight scheduled = inFlight h
   /\ sent scheduled = sent h)
  /\ suggestions (state fired) = []
  /\ showSuggestions (state fired) = false
  /\ isLoading (state fired) = false
  /\ inFlight fired = []
  /\ sent fired = sent h
  /\ (forall id reply, deliver id reply fired = fired).
Proof.
  intros Hsingle Hshort Hlater scheduled fired.
  split; [repeat split|].
  assert (Htoo : tooShort text = true).
  { unfold tooShort. apply orb_true_iff. right. now apply Nat.ltb_lt. }
  set (armed := {| state := state h; debounceRef := None;
                   abortControllerRef := abortControllerRef h;
                   inFlight := inFlight h; sent := sent h |}).
  assert (Hfired : fired = fetchSuggestions text armed).
  { unfold fired, elapse, scheduled. simpl.
    destruct (Z.leb_spec (now + 300) later); [reflexivity | lia]. }
  assert (Harmed : singleFlight armed).
  { eapply singleFlight_frame; [| |exact Hsingle]; simpl; auto. }
  pose proof (fetchSuggestions_spec text armed Harmed) as [Hspec _].
  rewrite <- Hfired, Htoo in Hspec. destruct Hspec as (Hs & Hin & Hst).
  rewrite Hst. simpl. repeat split; auto.
  intros id reply. now apply deliver_idle.
Qed.

Lemma short_text_cleared_after_debounce_witness :
  suggestions (state (elapse 2300 (getSuggestions 2000 "wh" shown))) = []
  /\ inFlight (elapse 2300 (getSuggestions 2000 "wh" shown)) = []
  /\ sent (elapse 2300 (getSuggestions 2000 "wh" shown)) = sent shown.
Proof.
  assert (Hsingle : singleFlight shown)
    by (apply singleFlight_run, singleFlight_mount).
  assert (Hshort : String.length "wh" < 3) by (simpl; lia).
  assert (Hlater : (2000 + 300 <= 2300)%Z) by lia.
  destruct (short_text_cleared_after_debounce shown 2000 2300 "wh"
              Hsingle Hshort Hlater) as (_ & Hitems & _ & _ & Hin & Hsent & _).
  repeat split; assumption.
Defined.

End Controller.

(** ** The image query pipeline *)

Section Pipeline.

Import GeminiChat.

Lemma changes_generation (cs : list ImageChange) (h : Hook) :
  generation (changes cs h) = generation h + List.length cs.
Proof.
  revert h. induction cs as [|c cs IH]; intro h.
  - simpl. lia.
  - change (changes (c :: cs) h) with (changes cs (change c h)).
    rewrite IH. destruct c; simpl; lia.
Qed.

Lemma changes_idle (c : ImageChange) (cs : list ImageChange) (h : Hook) :
  chatState (changes (c :: cs) h) = idle.
Proof.
  revert c h. induction cs as [|c' cs IH]; intros c h.
  - destruct c; reflexivity.
  - change (changes (c :: c' :: cs) h) with (changes (c' :: cs) (change c h)).
    apply IH.
Qed.

Lemma begin_generation (question : string) (h h1 : Hook) (fl : Flight) :
  askQuestion_begin question h = (h1, Some fl) ->
  askedGeneration fl = generation h /\ generation h1 = generation h
  /\ imageData h = Some (askedData fl) /\ currentImage h = Some (askedImage fl)
  /\ JS.truthy (askedImage fl) = true /\ askedQuestion fl = question.
Proof.
  unfold askQuestion_begin.
  destruct (imageData h) as [d|]; [|discriminate].
  destruct (currentImage h) as [image|]; [|discriminate].
  destruct (JS.truthy image) eqn:Himage; [|discriminate].
  intros [= <- <-]. simpl. repeat split; auto.
Qed.

(** C1, as stated, fails: a question is asked about [photoA] in generation
    1; while the call is suspended the user selects [photoB], which resets
    the chat state to idle in generation 2; the answer for [photoA] is then
    written over that idle state. *)
Lemma stale_result_is_applied :
  snd (askQuestion_begin "What is this?" (handleImageSelect photoA mount))
  = Some {| askedGeneration := 1; askedImage := "data:image/png;base64,AAAA";
            askedData := photoA; askedQuestion := "What is this?" |}
  /\ generation (changes [SelectImage photoB]
                   (fst (askQuestion_begin "What is this?"
                           (handleImageSelect photoA mount)))) = 2
  /\ chatState (changes [SelectImage photoB]
                  (fst (askQuestion_begin "What is this?"
                          (handleImageSelect photoA mount)))) = idle
  /\ fst (askQuestion_during hostUp "What is this?" [SelectImage photoB]
            (handleImageSelect photoA mount))
     = {| chatState := {| result := Some "A cat on a sofa."; isLoading := false;
                          error := None |};
          currentImage := Some "data:image/png;base64,BBBB";
          imageData := Some photoB; generation := 2 |}.
Proof. repeat split. Qed.

(** C1 (amended): a result is applied on arrival whatever happened to the
    image meanwhile. For a call that got past the image check, and any image
    changes made while it was suspended, the chat state after arrival is the
    outcome of the network exchange, the same as if no change had been
    made; the generation the call began in equals the current one exactly
    when no change was made. The image changes themselves do reset the chat
    state to idle at the time they are made. *)
Theorem result_applied_in_any_generation
    (net : Network) (question : string) (cs : list ImageChange)
    (h h1 : Hook) (fl : Flight) :
  askQuestion_begin question h = (h1, Some fl) ->
  let arrived := fst (askQuestion_during net question cs h) in
  chatState arrived = snd (askQuestion_network net fl)
  /\ chatState arrived = chatState (fst (askQuestion net question h))
  /\ (askedGeneration fl = generation arrived <-> cs = [])
  /\ (cs <> [] -> chatState (changes cs h1) = idle).
Proof.
  intros Hbegin arrived.
  destruct (begin_generation question h h1 fl Hbegin) as (Hgen & Hgen1 & _).
  unfold arrived, askQuestion, askQuestion_during. rewrite Hbegin.
  destruct (askQuestion_network net fl) as [traffic outcome]. simpl.
  split; [reflexivity|]. split; [reflexivity|]. split.
  - rewrite changes_generation, Hgen, Hgen1.
    destruct cs; simpl; split; intro; (congruence || lia).
  - intros Hcs. destruct cs as [|c cs]; [congruence|]. apply changes_idle.
Qed.

Lemma result_applied_in_any_generation_witness :
  chatState (fst (askQuestion_during hostUp "What is this?" [SelectImage photoB]
                    (handleImageSelect photoA mount)))
  = chatState (fst (askQuestion hostUp "What is this?"
                      (handleImageSelect photoA mount))).
Proof.
  destruct (result_applied_in_any_generation hostUp "What is this?"
              [SelectImage photoB] (handleImageSelect photoA mount) _ _ eq_refl)
    as (_ & Hsame & _).
  exact Hsame.
Defined.

(** The route turns away a blank or oversized question without calling
    the vision model. *)
Lemma route_refuses (vision : string -> string -> GeminiRoute.GeminiResponse)
    (image question : string) :
  question = "" \/ 500 < String.length question ->
  exists message,
    GeminiRoute.POST vision image question = (GeminiRoute.refuse message, []).
Proof.
  intros Hbad. unfold GeminiRoute.POST.
  destruct (negb (JS.truthy image) || negb (JS.truthy question)) eqn:Hempty.
  - eexists. reflexivity.
  - destruct Hbad as [-> | Hlong].
    + rewrite orb_true_r in Hempty. discriminate.
    + apply Nat.ltb_lt in Hlong. rewrite Hlong. eexists. reflexivity.
Qed.

Lemma begin_accepts (question : string) (h : Hook) :
  imageData h <> None -> JS.truthy_opt (currentImage h) = true ->
  exists d image,
    imageData h = Some d /\ currentImage h = Some image
    /\ askQuestion_begin question h
       = ({| chatState := {| result := None; isLoading := true; error := None |};
             currentImage := currentImage h; imageData := imageData h;
             generation := generation h |},
          Some {| askedGeneration := generation h; askedImage := image;
                  askedData := d; askedQuestion := question |}).
Proof.
  intros Hdata Himage. unfold askQuestion_begin.
  destruct (imageData h) as [d|]; [|congruence].
  destruct (currentImage h) as [image|]; [|discriminate].
  simpl in Himage. rewrite Himage. exists d, image. auto.
Qed.

(** The two shapes the traffic of image preparation can take. *)
Lemma prepareImage_traffic (net : Network) (fl : Flight) :
  (exists location, prepareImage net fl = ([FetchImage location], None))
  \/ (exists traffic image,
        prepareImage net fl = (traffic, Some image)
        /\ (traffic = [] \/ exists location, traffic = [FetchImage location])).
Proof.
  unfold prepareImage.
  destruct (file (askedData fl)); [right; eauto|].
  destruct (url (askedData fl)) as [location|]; [|right; eauto].
  destruct (JS.truthy location); [|right; eauto].
  destruct (fetchImage net location); [left | right]; eauto 6.
Qed.

(** C3, as stated, fails: with [photoA] selected, asking a question of three
    blanks posts to the route; with the URL image selected, asking a
    question of 501 characters first fetches the image and then posts to the
    route. Both end in an error, but after that traffic. *)
Lemma invalid_question_reaches_network :
  JS.trim "   " = ""
  /\ askQuestion hostUp "   " (handleImageSelect photoA mount)
     = ({| chatState := {| result := None; isLoading := false;
                           error := Some "Image and question are required" |};
           currentImage := Some "data:image/png;base64,AAAA";
           imageData := Some photoA; generation := 1 |},
        [PostGemini "data:image/png;base64,AAAA" ""])
  /\ String.length (JS.trim verbose) = 501
  /\ askQuestion hostUp verbose (handleImageSelect remote mount)
     = ({| chatState := {| result := None; isLoading := false;
                           error := Some "Question too long (max 500 characters)" |};
           currentImage := Some "https://example.org/cat.jpg";
           imageData := Some remote; generation := 1 |},
        [FetchImage "https://example.org/cat.jpg";
         PostGemini "data:image/jpeg;base64,CCCC" verbose]).
Proof. repeat split; vm_compute; reflexivity. Qed.

(** C3 (amended): [askQuestion] fails fast, with no traffic at all, only
    when no image is set. With an image set every call causes traffic; if
    the question is empty or longer than 500 characters after trimming, the
    call still ends in an error result and the vision model is never
    called, the question being turned away by the route the client posts
    to (or the call ending earlier, on a failed image fetch). *)
Theorem ask_validation
    (vision : string -> string -> GeminiRoute.GeminiResponse)
    (images : string -> ImageFetch) (question : string) (h : Hook) :
  let after := fst (askQuestion (viaRoute vision images) question h) in
  let traffic := snd (askQuestion (viaRoute vision images) question h) in
  (imageData h = None \/ JS.truthy_opt (currentImage h) = false ->
   traffic = []
   /\ chatState after = {| result := result (chatState h);
                           isLoading := isLoading (chatState h);
                           error := Some "Please select an image first" |})
  /\ (imageData h <> None -> JS.truthy_opt (currentImage h) = true ->
      traffic <> []
      /\ (JS.trim question = "" \/ 500 < String.length (JS.trim question) ->
          status (chatState after) = StatusError
          /\ visionCalls vision traffic = [])).
Proof.
  intros after traffic. subst after traffic.
  unfold askQuestion, askQuestion_during. split.
  - intros Hnone. unfold askQuestion_begin.
    destruct (imageData h) as [d|].
    + destruct Hnone as [Hnone|Hnone]; [discriminate|].
      destruct (currentImage h) as [image|]; simpl in Hnone.
      * rewrite Hnone. simpl. auto.
      * simpl. auto.
    + simpl. auto.
  - intros Hdata Himage.
    destruct (begin_accepts question h Hdata Himage) as (d & image & _ & _ & ->).
    set (fl := {| askedGeneration := generation h; askedImage := image;
                  askedData := d; askedQuestion := question |}).
    unfold askQuestion_network.
    destruct (prepareImage_traffic (viaRoute vision images) fl)
      as [[location ->] | (traffic & prepared & -> & Hshape)].
    + simpl. split; [discriminate|]. auto.
    + change (askedQuestion fl) with question.
      assert (Hsome : (traffic ++ [PostGemini prepared (JS.trim question)])%list <> [])
        by (intro Habs; apply app_eq_nil in Habs; destruct Habs; discriminate).
      split.
      * destruct (postGemini _ prepared (JS.trim question)) as [[m|]|[] ? ?];
          simpl; exact Hsome.
      * intros Hbad.
        destruct (route_refuses vision prepared (JS.trim question) Hbad)
          as [message Hrefuse].
        cbn [viaRoute postGemini]. rewrite Hrefuse. simpl.
        split; [reflexivity|].
        unfold visionCalls. rewrite flat_map_app. simpl. rewrite Hrefuse. simpl.
        destruct Hshape as [-> | [location ->]]; reflexivity.
Qed.

Lemma ask_validation_witness :
  snd (askQuestion (viaRoute describes (fun _ => ImageFetchFailed)) "What?" mount) = []
  /\ status (chatState (fst (askQuestion
                               (viaRoute describes (fun _ => ImageFetchFailed))
                               "   " (handleImageSelect photoA mount))))
     = StatusError.
Proof.
  split.
  - destruct (ask_validation describes (fun _ => ImageFetchFailed) "What?" mount)
      as [Hnone _].
    exact (proj1 (Hnone (or_introl eq_refl))).
  - destruct (ask_validation describes (fun _ => ImageFetchFailed) "   "
                (handleImageSelect photoA mount)) as [_ Hset].
    assert (Hdata : imageData (handleImageSelect photoA mount) <> None)
      by discriminate.
    destruct (Hset Hdata eq_refl) as [_ Hbad].
    exact (proj1 (Hbad (or_introl eq_refl))).
Defined.

(** C8, as stated, fails on the message: it begins with a capital letter. *)
Lemma url_failure_message_differs :
  fetchImage hostDown "https://example.org/cat.jpg" = ImageFetchFailed
  /\ error (chatState (fst (askQuestion hostDown "What is this?"
                              (handleImageSelect remote mount))))
     = Some "Failed to fetch image from URL"
  /\ error (chatState (fst (askQuestion hostDown "What is this?"
                              (handleImageSelect remote mount))))
     <> Some "failed to fetch image from URL".
Proof. repeat split. discriminate. Qed.

(** C8 (amended): for an image given by URL, selecting it only stores the
    location; the fetch happens when a question is asked. If that fetch is
    rejected (the promise of [fetch], of [blob] or of the reader rejects),
    the call ends with the error ["Failed to fetch image from URL"] and its
    only traffic is the image fetch: nothing is posted to the backend. If
    the fetch resolves, the payload read from the response is what gets
    posted. *)
Theorem url_fetch_failure
    (net : Network) (question : string) (h : Hook) (d : ImageData)
    (location : string) :
  file d = None -> url d = Some location ->
  JS.truthy location = true -> JS.truthy (preview d) = true ->
  let selected := handleImageSelect d h in
  currentImage selected = Some (preview d)
  /\ (fetchImage net location = ImageFetchFailed ->
      askQuestion net question selected
      = ({| chatState := {| result := None; isLoading := false;
                            error := Some "Failed to fetch image from URL" |};
            currentImage := Some (preview d); imageData := Some d;
            generation := S (generation h) |},
         [FetchImage location]))
  /\ (forall payload,
        fetchImage net location = ImageFetched payload ->
        snd (askQuestion net question selected)
        = [FetchImage location; PostGemini payload (JS.trim question)]).
Proof.
  intros Hfile Hurl Htruthy Hpreview selected. subst selected.
  unfold askQuestion, askQuestion_during, askQuestion_begin, handleImageSelect.
  cbn [imageData currentImage generation chatState].
  rewrite Hpreview.
  unfold askQuestion_network, prepareImage.
  cbn [askedData askedImage askedQuestion].
  rewrite Hfile, Hurl, Htruthy.
  split; [reflexivity|]. split.
  - intros ->. reflexivity.
  - intros payload ->.
    destruct (postGemini net payload (JS.trim question)) as [[m|]|[] ? ?];
      reflexivity.
Qed.

Lemma url_fetch_failure_witness :
  askQuestion hostDown "What is this?" (handleImageSelect remote mount)
  = ({| chatState := {| result := None; isLoading := false;
                        error := Some "Failed to fetch image from URL" |};
        currentImage := Some "https://example.org/cat.jpg";
        imageData := Some remote; generation := 1 |},
     [FetchImage "https://example.org/cat.jpg"]).
Proof.
  destruct (url_fetch_failure hostDown "What is this?" mount remote
              "https://example.org/cat.jpg" eq_refl eq_refl eq_refl eq_refl)
    as (_ & Hfail & _).
  exact (Hfail eq_refl).
Defined.

End Pipeline.

(** ** More on strings *)

Lemma prefix_empty (s : string) : String.prefix "" s = true.
Proof. destruct s; reflexivity. Qed.

Lemma prefix_append (s t : string) : String.prefix s (s ++ t) = true.
Proof.
induction s as [|c s IH]; simpl.
- apply prefix_empty.
- destruct (ascii_dec c c); [exact IH | congruence].
Qed.

Lemma prefix_includes (s p : string) :
  String.prefix p s = true -> JS.includes s p = true.
Proof. intros H. destruct s; simpl in *; rewrite H; reflexivity. Qed.

Lemma toLowerCase_append (s t : string) :
  JS.toLowerCase (s ++ t) = JS.toLowerCase s ++ JS.toLowerCase t.
Proof.
induction s as [|c s IH]; simpl; [reflexivity | now rewrite IH].
Qed.

Lemma append_inj_r (s a b : string) : s ++ a = s ++ b -> a = b.
Proof.
induction s as [|c s IH]; simpl; intros H; [exact H|].
injection H as H. auto.
Qed.

Lemma In_slice0 {A : Type} (n : nat) (x : A) (xs : list A) :
  In x (JS.slice0 n xs) -> In x xs.
Proof.
unfold JS.slice0. revert xs. induction n as [|n IH]; intros [|y ys]; simpl; try tauto.
intros [->|H]; auto.
Qed.

Lemma NoDup_slice0 {A : Type} (n : nat) (xs : list A) :
  NoDup xs -> NoDup (JS.slice0 n xs).
Proof.
unfold JS.slice0. revert xs. induction n as [|n IH]; intros [|y ys] H; simpl;
  try constructor.
- inversion H as [|? ? Hnotin Hrest]; subst.
  intro Hin. apply Hnotin. exact (In_slice0 n y ys Hin).
- inversion H; subst. auto.
Qed.

(** The whitespace trimmed once is trimmed for good. *)
Lemma trimEnd_idempotent (s : string) : JS.trimEnd (JS.trimEnd s) = JS.trimEnd s.
Proof.
induction s as [|c s IH]; [reflexivity|].
simpl. destruct (JS.trimEnd s) as [|d kept] eqn:Hkept.
- destruct (JS.isWhiteSpace c) eqn:Hc; simpl; [reflexivity | now rewrite Hc].
- change (JS.trimEnd (String c (String d kept)))
    with (match JS.trimEnd (String d kept) with
          | EmptyString =>
              if JS.isWhiteSpace c then EmptyString else String c EmptyString
          | kept' => String c kept'
          end).
  rewrite IH. reflexivity.
Qed.

Lemma trimStart_clean (s : string) : startsClean (JS.trimStart s).
Proof.
induction s as [|c s IH]; simpl; [exact I|].
destruct (JS.isWhiteSpace c) eqn:Hc; [exact IH | exact Hc].
Qed.

Lemma trimStart_of_clean (s : string) : startsClean s -> JS.trimStart s = s.
Proof.
destruct s as [|c s]; simpl; [reflexivity|]. intros ->. reflexivity.
Qed.

Lemma trimEnd_clean (s : string) : startsClean s -> startsClean (JS.trimEnd s).
Proof.
destruct s as [|c s]; simpl; [auto|]. intros Hc.
destruct (JS.trimEnd s); simpl; [rewrite Hc|]; exact Hc.
Qed.

Lemma trim_idempotent (s : string) : JS.trim (JS.trim s) = JS.trim s.
Proof.
unfold JS.trim.
rewrite (trimStart_of_clean (JS.trimEnd (JS.trimStart s))).
- apply trimEnd_idempotent.
- apply trimEnd_clean, trimStart_clean.
Qed.

(** ** More on the resolver *)

Section ResolverMore.

Import Suggestions.

Lemma canned_short :
  Forall (fun entry => Forall (fun q => String.length q <= 100) (snd entry)) patterns.
Proof. repeat constructor; simpl; lia. Qed.

Lemma canned_distinct : Forall (fun entry => NoDup (snd entry)) patterns.
Proof.
repeat (constructor; try (simpl; intuition discriminate)).
Qed.

Lemma find_entry (lower : string) (entry : string * list string) :
  find (fun e => keyMatches lower (fst e)) patterns = Some entry ->
  In entry patterns.
Proof. intros H. exact (proj1 (find_some _ _ H)). Qed.

Lemma remote_candidates (partial : string) (reply : HFReply) :
  List.length (callHuggingFaceModel partial reply) <= 1
  /\ forall s, In s (callHuggingFaceModel partial reply) ->
       String.length partial < String.length s <= 100.
Proof.
destruct reply as [| status | | data]; simpl; try (split; [lia | tauto]).
destruct data as [|[[generated|]] rest]; simpl; try (split; [lia | tauto]).
destruct (JS.truthy generated); simpl; try (split; [lia | tauto]).
destruct (String.length partial <? String.length (JS.trim generated))%nat eqn:Hlong;
  destruct (String.length (JS.trim generated) <=? 100)%nat eqn:Hcap; simpl;
  try (split; [lia | tauto]).
apply Nat.ltb_lt in Hlong. apply Nat.leb_le in Hcap.
split; [lia|]. intros s [<-|[]]. lia.
Qed.

(** X1: whatever the pattern tier offers contains what was typed, letter case
    apart. *)
Theorem pattern_tier_contains_input (partial s : string) :
  In s (getPatternBasedSuggestions partial) ->
  JS.includes (JS.toLowerCase s) (JS.toLowerCase partial) = true.
Proof.
unfold getPatternBasedSuggestions. rewrite scanPatterns_find.
destruct (find _ patterns) as [[key canned]|]; cbn [option_map snd]; intros Hin.
- apply In_slice0, filter_In in Hin. destruct Hin as [_ Hcompletes].
  unfold completes, JS.startsWith in Hcompletes.
  apply orb_true_iff in Hcompletes. destruct Hcompletes as [Hpre|Hinc];
    [now apply prefix_includes | exact Hinc].
- apply In_slice0, filter_In in Hin. destruct Hin as [Hin _].
  apply prefix_includes.
  destruct Hin as [<-|[<-|[<-|[]]]]; rewrite toLowerCase_append; apply prefix_append.
Qed.

Lemma pattern_tier_contains_input_witness :
  JS.includes (JS.toLowerCase "What colors are most prominent?")
              (JS.toLowerCase "What COL") = true.
Proof.
apply (pattern_tier_contains_input "What COL" "What colors are most prominent?").
left. reflexivity.
Defined.

Lemma pattern_tier_short (partial : string) :
  Forall (fun s => String.length s <= 100) (getPatternBasedSuggestions partial).
Proof.
unfold getPatternBasedSuggestions. rewrite scanPatterns_find.
apply Forall_forall. intros s.
destruct (find _ patterns) as [[key canned]|] eqn:Hfind; cbn [option_map snd];
  intros Hin; apply In_slice0, filter_In in Hin.
- apply find_entry in Hfind.
  pose proof (proj1 (Forall_forall _ _) canned_short _ Hfind) as Hshort.
  exact (proj1 (Forall_forall _ _) Hshort s (proj1 Hin)).
- apply Nat.leb_le. exact (proj2 Hin).
Qed.

Lemma pattern_tier_distinct (partial : string) :
  NoDup (getPatternBasedSuggestions partial).
Proof.
unfold getPatternBasedSuggestions. rewrite scanPatterns_find.
destruct (find _ patterns) as [[key canned]|] eqn:Hfind; cbn [option_map snd];
  apply NoDup_slice0, NoDup_filter.
- apply find_entry in Hfind.
  exact (proj1 (Forall_forall _ _) canned_distinct _ Hfind).
- unfold defaultSuggestions.
  assert (Hdiff : forall a b, a <> b -> partial ++ a <> partial ++ b)
    by (intros a b Hab Heq; apply Hab; exact (append_inj_r _ _ _ Heq)).
  apply NoDup_cons; [|apply NoDup_cons; [|apply NoDup_cons; [|apply NoDup_nil]]].
  + intros [H|[H|[]]]; revert H; apply Hdiff; discriminate.
  + intros [H|[]]; revert H; apply Hdiff; discriminate.
  + intros [].
Qed.

(** X2: the pattern tier offers no duplicates and nothing longer than 100
    characters. *)
Theorem pattern_tier_wellformed (partial : string) :
  NoDup (getPatternBasedSuggestions partial)
  /\ Forall (fun s => String.length s <= 100) (getPatternBasedSuggestions partial).
Proof.
split; [apply pattern_tier_distinct | apply pattern_tier_short].
Qed.

(** What the suggestions route answers, by the length of [partial]. *)
Lemma POST_cases (env : Env) (partial : string) :
  POST env partial
  = if String.eqb partial "" then None
    else if (String.length partial <? 3)%nat then Some []
         else Some (generateSuggestions env partial).
Proof.
unfold POST, JS.truthy. destruct (String.eqb partial ""); reflexivity.
Qed.

(** X3: with no local model configured, the resolver returns at most 3
    suggestions of at most 100 characters each, whatever the remote tier
    answers. The route answers an empty [partial] with status 400, a
    non-empty one of fewer than 3 characters with the empty list, and any
    other with exactly the resolver's list, so what it returns is bounded
    in the same way. *)
Theorem resolver_bounded_without_local (env : Env) (partial : string) :
  JS.truthy_opt (LOCAL_MODEL_API_URL env) = false ->
  List.length (generateSuggestions env partial) <= 3
  /\ Forall (fun s => String.length s <= 100) (generateSuggestions env partial)
  /\ POST env partial
     = (if String.eqb partial "" then None
        else if (String.length partial <? 3)%nat then Some []
             else Some (generateSuggestions env partial))
  /\ (forall items, POST env partial = Some items ->
        List.length items <= 3 /\ Forall (fun s => String.length s <= 100) items).
Proof.
intros Hlocal.
assert (Hgen : List.length (generateSuggestions env partial) <= 3
               /\ Forall (fun s => String.length s <= 100)
                         (generateSuggestions env partial)).
{ unfold generateSuggestions, tryLocalModel. rewrite Hlocal.
  destruct (remote_candidates partial (huggingFace env)) as [Hone Hlen].
  destruct (JS.truthy_opt (HUGGING_FACE_API_KEY env)).
  - destruct (callHuggingFaceModel partial (huggingFace env)) as [|s rest] eqn:Hhf.
    + split; [apply pattern_tier_cap | apply pattern_tier_short].
    + split; [lia|]. apply Forall_forall. intros x Hx. specialize (Hlen x Hx). lia.
  - split; [apply pattern_tier_cap | apply pattern_tier_short]. }
split; [tauto|]. split; [tauto|]. split; [apply POST_cases|].
intros items. rewrite POST_cases.
destruct (String.eqb partial ""); [discriminate|].
destruct (String.length partial <? 3)%nat; intros [= <-]; [|exact Hgen].
split; [simpl; lia | constructor].
Qed.

End ResolverMore.

(** ** Invariants of the auto-complete hook *)

Section HookInvariants.

Import AutoComplete.

Lemma abortCurrent_frame (h : Hook) :
  state (fst (abortCurrent h)) = state h
  /\ sent (fst (abortCurrent h)) = sent h
  /\ debounceRef (fst (abortCurrent h)) = debounceRef h.
Proof.
unfold abortCurrent. destruct (abortControllerRef h); [|auto].
destruct (existsb _ _); auto.
Qed.

(** What one run of [fetchSuggestions] can do, whatever is in flight. *)
Lemma fetchSuggestions_frame (text : string) (h : Hook) :
  debounceRef (fetchSuggestions text h) = debounceRef h
  /\ (state (fetchSuggestions text h) = emptied (state h)
      \/ state (fetchSuggestions text h) = awaiting (state h)
      \/ state (fetchSuggestions text h) = emptied (awaiting (state h)))
  /\ (isLoading (state (fetchSuggestions text h)) = true ->
      inFlight (fetchSuggestions text h) <> [])
  /\ (sent (fetchSuggestions text h) = sent h
      \/ (tooShort text = false
          /\ sent (fetchSuggestions text h)
             = (sent h ++ [{| requestId := List.length (sent h);
                              partial := JS.trim text |}])%list)).
Proof.
destruct (abortCurrent_frame h) as (Hst & Hsent & Hdeb).
unfold fetchSuggestions.
destruct (abortCurrent h) as [h1 woken]. simpl in Hst, Hsent, Hdeb.
destruct (tooShort text), woken;
  cbn [withState state sent inFlight debounceRef settle emptied awaiting isLoading];
  rewrite ?Hst, ?Hsent, ?Hdeb.
- repeat split; auto. discriminate.
- repeat split; auto. discriminate.
- repeat split; auto. discriminate.
- repeat split; auto.
  intros _ Habs. apply app_eq_nil in Habs. destruct Habs; discriminate.
Qed.

Lemma presentable_emptied (st : AutoCompleteState) : presentable (emptied st).
Proof. intros Habs. discriminate. Qed.

Lemma presentable_awaiting (st : AutoCompleteState) :
  presentable st -> presentable (awaiting st).
Proof. intros H. exact H. Qed.

Lemma presentable_installed (items : list string) (st : AutoCompleteState) :
  presentable (installed items st).
Proof.
intros Hshow. simpl in Hshow. apply Nat.ltb_lt in Hshow.
split; [destruct items; simpl in *; [lia | discriminate]|].
unfold inRange. simpl. lia.
Qed.

Lemma presentable_settle (reply : Reply) (st : AutoCompleteState) :
  presentable (settle reply st).
Proof.
destruct reply as [| | |[] [items|]]; simpl;
  first [apply presentable_installed | apply presentable_emptied].
Qed.

Lemma presentable_navigate (d : Direction) (st : AutoCompleteState) :
  presentable st -> presentable (navigateSuggestions d st).
Proof.
intros Hst.
destruct (showSuggestions st) eqn:Hshow.
- destruct (Hst Hshow) as [Hitems Hrange].
  destruct (navigate_frame st Hshow Hitems d) as (Hs & _ & Hv).
  intros _. split; [congruence|].
  unfold inRange in *. rewrite Hs.
  destruct d.
  + rewrite (navigate_up_index st Hshow Hitems).
    destruct (Z.gtb_spec (selectedIndex st) (-1)); lia.
  + rewrite (navigate_down_index st Hshow Hitems).
    destruct (Z.ltb_spec (selectedIndex st)
                (Z.of_nat (List.length (suggestions st)) - 1)); lia.
- rewrite navigate_hidden by auto. exact Hst.
Qed.

Lemma presentable_select (index : option Z) (st : AutoCompleteState) :
  presentable st -> presentable (snd (selectSuggestion index st)).
Proof.
intros Hst. unfold selectSuggestion.
destruct (_ && _); simpl; [intros Habs; discriminate | exact Hst].
Qed.

Lemma presentable_fetch (text : string) (h : Hook) :
  presentable (state h) -> presentable (state (fetchSuggestions text h)).
Proof.
intros Hst.
destruct (fetchSuggestions_frame text h) as (_ & [-> | [-> | ->]] & _).
- apply presentable_emptied.
- exact Hst.
- apply presentable_emptied.
Qed.

Lemma presentable_elapse (now : Z) (h : Hook) :
  presentable (state h) -> presentable (state (elapse now h)).
Proof.
intros Hst. unfold elapse.
destruct (debounceRef h) as [timer|]; [|exact Hst].
destruct (deadline timer <=? now)%Z; [|exact Hst].
apply presentable_fetch. exact Hst.
Qed.

Lemma presentable_act (a : Action) (h : Hook) :
  presentable (state h) -> presentable (state (act a h)).
Proof.
intros Hst. destruct a; simpl.
- now apply presentable_elapse.
- now apply presentable_elapse.
- unfold deliver. destruct (existsb _ _); [apply presentable_settle | exact Hst].
- now apply presentable_navigate.
- now apply presentable_select.
- intros Habs. discriminate.
- intros Habs. discriminate.
Qed.

(** X4: in every state the hook can reach, a visible suggestion list is
    non-empty and its selection is the sentinel or an index into it. *)
Theorem visible_list_is_presentable (actions : list Action) :
  let st := state (run actions mount) in
  showSuggestions st = true ->
  suggestions st <> []
  /\ (-1 <= selectedIndex st < Z.of_nat (List.length (suggestions st)))%Z.
Proof.
intro st. subst st.
assert (Hgen : forall h, presentable (state h) -> presentable (state (run actions h))).
{ induction actions as [|a actions IH]; intros h Hst; [exact Hst|].
  change (run (a :: actions) h) with (run actions (act a h)).
  apply IH, presentable_act, Hst. }
apply Hgen. intros Habs. discriminate.
Qed.

Lemma visible_list_is_presentable_witness :
  suggestions (state shown) <> []
  /\ (-1 <= selectedIndex (state shown)
       < Z.of_nat (List.length (suggestions (state shown))))%Z.
Proof.
exact (visible_list_is_presentable
         [Edit 0 "what"; Tick 300; Arrive 0 (Body true (Some threeItems));
          Edit 1000 "what c"; Tick 1300] eq_refl).
Defined.

Lemma spinning_elapse (now : Z) (h : Hook) : spinning h -> spinning (elapse now h).
Proof.
intros Hh. unfold elapse.
destruct (debounceRef h) as [timer|]; [|exact Hh].
destruct (deadline timer <=? now)%Z; [|exact Hh].
exact (proj1 (proj2 (proj2 (fetchSuggestions_frame (pendingText timer) _)))).
Qed.

Lemma spinning_act (a : Action) (h : Hook) : spinning h -> spinning (act a h).
Proof.
intros Hh. destruct a; simpl.
- exact (spinning_elapse now h Hh).
- now apply spinning_elapse.
- unfold deliver. destruct (existsb _ _); [|exact Hh].
  unfold spinning. simpl.
  destruct reply as [| | |[] [items|]]; simpl; discriminate.
- unfold spinning. simpl. rewrite navigate_loading. exact Hh.
- unfold spinning, selectSuggestion. simpl.
  destruct (_ && _); simpl; exact Hh.
- exact Hh.
- unfold spinning. simpl. discriminate.
Qed.

(** X5: in every state the hook can reach, [isLoading] is only ever true
    while a request is in flight. *)
Theorem loading_only_in_flight (actions : list Action) :
  isLoading (state (run actions mount)) = true ->
  inFlight (run actions mount) <> [].
Proof.
assert (Hgen : forall h, spinning h -> spinning (run actions h)).
{ induction actions as [|a actions IH]; intros h Hh; [exact Hh|].
  change (run (a :: actions) h) with (run actions (act a h)).
  apply IH, spinning_act, Hh. }
apply Hgen. unfold spinning. simpl. discriminate.
Qed.

Lemma loading_only_in_flight_witness : inFlight shown <> [].
Proof.
exact (loading_only_in_flight
         [Edit 0 "what"; Tick 300; Arrive 0 (Body true (Some threeItems));
          Edit 1000 "what c"; Tick 1300] eq_refl).
Defined.

End HookInvariants.

(** ** Requests of the auto-complete hook *)

Section HookRequests.

Import AutoComplete.

Lemma elapse_budget (now : Z) (h : Hook) :
  List.length (sent (elapse now h)) + armed (elapse now h)
  <= List.length (sent h) + armed h.
Proof.
unfold elapse, armed.
destruct (debounceRef h) as [timer|] eqn:Htimer; [|rewrite Htimer; lia].
destruct (deadline timer <=? now)%Z; [|rewrite Htimer; lia].
destruct (fetchSuggestions_frame (pendingText timer)
            {| state := state h; debounceRef := None;
               abortControllerRef := abortControllerRef h;
               inFlight := inFlight h; sent := sent h |})
  as (-> & _ & _ & [-> | [_ ->]]); simpl; [lia|].
rewrite length_app. simpl. lia.
Qed.

Lemma act_budget (a : Action) (h : Hook) :
  List.length (sent (act a h)) + armed (act a h)
  <= List.length (sent h) + armed h + edits [a].
Proof.
destruct a; unfold edits; simpl.
- pose proof (elapse_budget now h) as Hb. unfold armed in *. simpl.
  destruct (debounceRef (elapse now h)); lia.
- pose proof (elapse_budget now h). lia.
- unfold deliver, armed. destruct (existsb _ _); simpl; lia.
- unfold armed. simpl. lia.
- unfold armed. simpl. lia.
- unfold armed. simpl. lia.
- unfold armed. simpl. lia.
Qed.

Lemma run_budget (actions : list Action) (h : Hook) :
  List.length (sent (run actions h)) + armed (run actions h)
  <= List.length (sent h) + armed h + edits actions.
Proof.
revert h. induction actions as [|a actions IH]; intro h.
- unfold edits. simpl. lia.
- change (run (a :: actions) h) with (run actions (act a h)).
  specialize (IH (act a h)). pose proof (act_budget a h) as Ha.
  unfold edits in *. simpl in *. destruct (isEdit a); simpl in *; lia.
Qed.

(** X6: debouncing never amplifies: over any run of the hook, the number of
    requests sent to the suggestions route is at most the number of edits,
    and one less while a timer is still pending. *)
Theorem requests_bounded_by_edits (actions : list Action) :
  List.length (sent (run actions mount)) + armed (run actions mount)
  <= edits actions.
Proof.
pose proof (run_budget actions mount) as H. simpl in H. exact H.
Qed.

Lemma tooShort_false (text : string) :
  tooShort text = false -> 3 <= String.length text.
Proof.
unfold tooShort. intros H. apply orb_false_iff in H. destruct H as [_ H].
apply Nat.ltb_ge in H. exact H.
Qed.

Lemma traced_more (seen more : list Action) (h : Hook) :
  traced seen h -> traced (seen ++ more) h.
Proof.
intros [Hsent Htimer]. split.
- intros r Hr. destruct (Hsent r Hr) as (now & text & Hin & Hrest).
  exists now, text. split; [apply in_or_app; auto | exact Hrest].
- intros timer Ht. destruct (Htimer timer Ht) as (now & Hin).
  exists now. apply in_or_app; auto.
Qed.

Lemma traced_elapse (seen : list Action) (now : Z) (h : Hook) :
  traced seen h -> traced seen (elapse now h).
Proof.
intros [Hsent Htimer]. unfold elapse.
destruct (debounceRef h) as [timer|] eqn:Hdeb; [|split; [exact Hsent | now rewrite Hdeb]].
destruct (deadline timer <=? now)%Z; [|split; [exact Hsent | now rewrite Hdeb]].
destruct (fetchSuggestions_frame (pendingText timer)
            {| state := state h; debounceRef := None;
               abortControllerRef := abortControllerRef h;
               inFlight := inFlight h; sent := sent h |})
  as (Hd & _ & _ & Hs).
simpl in Hd, Hs. split.
- intros r Hr. destruct Hs as [Hs | [Hlong Hs]]; rewrite Hs in Hr.
  + exact (Hsent r Hr).
  + apply in_app_or in Hr. destruct Hr as [Hr | [<- | []]]; [exact (Hsent r Hr)|].
    destruct (Htimer timer eq_refl) as (t & Hin).
    exists t, (pendingText timer). simpl.
    split; [exact Hin | split; [reflexivity | now apply tooShort_false]].
- intros timer'. rewrite Hd. discriminate.
Qed.

Lemma traced_act (seen : list Action) (a : Action) (h : Hook) :
  traced seen h -> traced (seen ++ [a]) (act a h).
Proof.
intros Hh. destruct a; simpl.
- pose proof (traced_elapse seen now h Hh) as [Hsent _]. split.
  + intros r Hr. simpl in Hr.
    destruct (Hsent r Hr) as (t & txt & Hin & Hrest).
    exists t, txt. split; [apply in_or_app; auto | exact Hrest].
  + simpl. intros timer [= <-]. exists now. simpl.
    apply in_or_app. right. left. reflexivity.
- apply traced_more, traced_elapse, Hh.
- apply traced_more. unfold deliver. destruct (existsb _ _); [|exact Hh].
  exact Hh.
- apply traced_more. exact Hh.
- apply traced_more. exact Hh.
- apply traced_more. exact Hh.
- apply traced_more. exact Hh.
Qed.

Lemma traced_run (actions seen : list Action) (h : Hook) :
  traced seen h -> traced (seen ++ actions) (run actions h).
Proof.
revert seen h. induction actions as [|a actions IH]; intros seen h Hh.
- rewrite app_nil_r. exact Hh.
- change (run (a :: actions) h) with (run actions (act a h)).
  replace (seen ++ a :: actions)%list with ((seen ++ [a]) ++ actions)%list
    by (rewrite <- app_assoc; reflexivity).
  apply IH, traced_act, Hh.
Qed.

(** X7: over any run of the hook, every request sent to the suggestions
    route carries the trimmed text of one of the edits, and that text had at
    least 3 characters: nothing is ever requested for shorter text. *)
Theorem requests_carry_edits (actions : list Action) (r : Request) :
  In r (sent (run actions mount)) ->
  exists now text,
    In (Edit now text) actions
    /\ partial r = JS.trim text
    /\ 3 <= String.length text.
Proof.
assert (Hmount : traced [] mount).
{ split; [intros r' [] | intros timer; discriminate]. }
exact (proj1 (traced_run actions [] mount Hmount) r).
Qed.

Lemma requests_carry_edits_witness :
  exists now text,
    In (Edit now text)
       [Edit 0 "what"; Tick 300; Arrive 0 (Body true (Some threeItems));
        Edit 1000 "what c"; Tick 1300]
    /\ "what c" = JS.trim text /\ 3 <= String.length text.
Proof.
apply (requests_carry_edits
         [Edit 0 "what"; Tick 300; Arrive 0 (Body true (Some threeItems));
          Edit 1000 "what c"; Tick 1300]
         {| requestId := 1; partial := "what c" |}).
right. left. reflexivity.
Defined.

(** X8: client and route together. When the debounce of a text of at least
    3 characters has run and the suggestions route has answered its
    request, the items shown are what the resolver returns for the trimmed
    text (none if the trimmed text has fewer than 3 characters), the list is
    visible exactly when there are items, nothing is loading and no call is
    left in flight. *)
Theorem resolution_end_to_end
    (env : Suggestions.Env) (h : Hook) (now later : Z) (text : string) :
  singleFlight h ->
  tooShort text = false ->
  (now + 300 <= later)%Z ->
  let fired := elapse later (getSuggestions now text h) in
  let answered :=
    deliver (List.length (sent h)) (Page.suggestionsReply env (JS.trim text)) fired in
  sent fired = (sent h ++ [{| requestId := List.length (sent h);
                              partial := JS.trim text |}])%list
  /\ suggestions (state answered)
     = (if (String.length (JS.trim text) <? 3)%nat then []
        else Suggestions.generateSuggestions env (JS.trim text))
  /\ showSuggestions (state answered)
     = negb (Nat.eqb (List.length (suggestions (state answered))) 0)
  /\ isLoading (state answered) = false
  /\ inFlight answered = [].
Proof.
intros Hsingle Hlong Hlater fired answered.
set (primed := {| state := state h; debounceRef := None;
                  abortControllerRef := abortControllerRef h;
                  inFlight := inFlight h; sent := sent h |}).
assert (Hfired : fired = fetchSuggestions text primed).
{ unfold fired, elapse, getSuggestions. simpl.
  destruct (Z.leb_spec (now + 300) later); [reflexivity | lia]. }
assert (Hprimed : singleFlight primed).
{ eapply singleFlight_frame; [| |exact Hsingle]; simpl; auto. }
pose proof (fetchSuggestions_spec text primed Hprimed) as [Hspec _].
rewrite <- Hfired, Hlong in Hspec. simpl in Hspec.
destruct Hspec as (Hsent & Hin & _ & _).
pose proof (deliver_spec (List.length (sent h))
              (Page.suggestionsReply env (JS.trim text)) fired _ Hin)
  as (_ & Hstate & Hflight).
simpl in Hstate, Hflight. fold answered in Hstate, Hflight.
split; [exact Hsent|]. rewrite Hstate.
split; [|split; [|split; [|exact Hflight]]].
- unfold Page.suggestionsReply, Suggestions.POST.
  destruct (JS.trim text) as [|c rest] eqn:Htrim; [reflexivity|].
  cbn [JS.truthy String.eqb negb].
  destruct (String.length (String c rest) <? 3)%nat; reflexivity.
- unfold Page.suggestionsReply.
  destruct (Suggestions.POST env (JS.trim text)) as [items|]; simpl;
    [destruct items; reflexivity | reflexivity].
- unfold Page.suggestionsReply.
  destruct (Suggestions.POST env (JS.trim text)); reflexivity.
Qed.

Lemma resolution_end_to_end_witness :
  suggestions (state (deliver 0 (Page.suggestionsReply Suggestions.offline "what obj")
                        (elapse 300 (getSuggestions 0 " what obj " mount))))
  = ["What objects are in this image?"].
Proof.
assert (Hlong : tooShort " what obj " = false) by reflexivity.
assert (Hlater : (0 + 300 <= 300)%Z) by lia.
destruct (resolution_end_to_end Suggestions.offline mount 0 300 " what obj "
            singleFlight_mount Hlong Hlater) as (_ & Hitems & _).
exact Hitems.
Defined.

(** X9: emptying the question field clears the suggestion state at once but
    cancels nothing: a debounce timer already pending for a text of at least
    3 characters still runs and sends that text's request, and the reply to
    it is put on display. *)
Theorem clearing_does_not_cancel
    (h : Hook) (timer : Timer) (now later : Z) (items : list string) :
  singleFlight h ->
  debounceRef h = Some timer ->
  tooShort (pendingText timer) = false ->
  (deadline timer <= later)%Z ->
  let cleared := handleInputChange now "" h in
  let fired := elapse later cleared in
  state cleared = initialState
  /\ debounceRef cleared = Some timer
  /\ inFlight cleared = inFlight h
  /\ sent fired = (sent h ++ [{| requestId := List.length (sent h);
                               partial := JS.trim (pendingText timer) |}])%list
  /\ suggestions (state (deliver (List.length (sent h)) (Body true (Some items)) fired))
     = items.
Proof.
intros Hsingle Htimer Hlong Hdue cleared fired.
split; [reflexivity|]. split; [exact Htimer|]. split; [reflexivity|].
set (primed := {| state := initialState; debounceRef := None;
                  abortControllerRef := abortControllerRef h;
                  inFlight := inFlight h; sent := sent h |}).
assert (Hfired : fired = fetchSuggestions (pendingText timer) primed).
{ unfold fired, elapse, cleared, handleInputChange. simpl. rewrite Htimer.
  destruct (Z.leb_spec (deadline timer) later); [reflexivity | lia]. }
assert (Hprimed : singleFlight primed).
{ eapply singleFlight_frame; [| |exact Hsingle]; simpl; auto. }
pose proof (fetchSuggestions_spec (pendingText timer) primed Hprimed) as [Hspec _].
rewrite <- Hfired, Hlong in Hspec. simpl in Hspec.
destruct Hspec as (Hsent & Hin & _ & _).
split; [exact Hsent|].
pose proof (deliver_spec (List.length (sent h)) (Body true (Some items)) fired _ Hin)
  as (_ & Hstate & _).
simpl in Hstate. rewrite Hstate. reflexivity.
Qed.

Lemma clearing_does_not_cancel_witness :
  sent (elapse 300 (handleInputChange 100 "" (getSuggestions 0 "what" mount)))
  = [{| requestId := 0; partial := "what" |}].
Proof.
assert (Hsingle : singleFlight (getSuggestions 0 "what" mount))
  by (intros r []).
assert (Hlong : tooShort "what" = false) by reflexivity.
assert (Hdue : (deadline {| deadline := 300; pendingText := "what" |} <= 300)%Z)
  by (simpl; lia).
destruct (clearing_does_not_cancel (getSuggestions 0 "what" mount)
            {| deadline := 300; pendingText := "what" |} 100 300 []
            Hsingle eq_refl Hlong Hdue) as (_ & _ & _ & Hsent & _).
exact Hsent.
Defined.

End HookRequests.

(** ** The question field *)

Section QuestionField.

Import AutoComplete QuestionBox.

Lemma truthy_nonempty (s : string) : JS.truthy s = true <-> s <> "".
Proof.
unfold JS.truthy. destruct (String.eqb_spec s ""); simpl; split; congruence.
Qed.

Lemma skipn_past {A : Type} (xs ys : list A) :
  skipn (List.length xs) (xs ++ ys) = ys.
Proof. induction xs as [|x xs IH]; simpl; auto. Qed.

(** X10: [handleSubmit] hands [onSubmit] only questions that are non-empty
    and already trimmed; when it does, the field is emptied and the
    suggestion state reset; when the box is disabled or the question is
    blank it does nothing at all. *)
Theorem submit_contract (disabled : bool) (b : Box) :
  (disabled = true \/ JS.trim (question b) = "" -> handleSubmit disabled b = b)
  /\ (disabled = false -> JS.trim (question b) <> "" ->
      submitted (handleSubmit disabled b)
      = (submitted b ++ [JS.trim (question b)])%list
      /\ question (handleSubmit disabled b) = ""
      /\ state (auto (handleSubmit disabled b)) = initialState
      /\ debounceRef (auto (handleSubmit disabled b)) = debounceRef (auto b)
      /\ inFlight (auto (handleSubmit disabled b)) = inFlight (auto b))
  /\ (forall q, In q (submitted (handleSubmit disabled b)) ->
        In q (submitted b) \/ (q <> "" /\ JS.trim q = q)).
Proof.
unfold handleSubmit.
destruct (JS.truthy (JS.trim (question b))) eqn:Htext.
- apply truthy_nonempty in Htext.
  destruct disabled; simpl.
  + split; [auto|]. split; [discriminate | auto].
  + split; [intros [|]; congruence|]. split; [auto 6|].
    intros q Hq. apply in_app_or in Hq.
    destruct Hq as [Hq | [<- | []]]; [auto|].
    right. split; [exact Htext | apply trim_idempotent].
- assert (Hblank : JS.trim (question b) = "").
  { destruct (String.eqb_spec (JS.trim (question b)) ""); [assumption|].
    apply truthy_nonempty in n. congruence. }
  simpl. split; [auto|]. split; [congruence | auto].
Qed.

Lemma submit_contract_witness :
  submitted (handleSubmit false
               {| question := "  What is this? "; auto := mount; submitted := [] |})
  = ["What is this?"].
Proof.
destruct (submit_contract false
            {| question := "  What is this? "; auto := mount; submitted := [] |})
  as (_ & Hsubmit & _).
assert (Htext : JS.trim "  What is this? " <> "") by discriminate.
exact (proj1 (Hsubmit eq_refl Htext)).
Defined.

(** Arrow keys on an offered list only move the selection. *)
Lemma press_arrow (b : Box) (disabled : bool) (presses : nat) :
  offering (state (auto b)) ->
  question (press ArrowDown presses disabled b) = question b
  /\ submitted (press ArrowDown presses disabled b) = submitted b
  /\ state (auto (press ArrowDown presses disabled b))
     = Nat.iter presses (navigateSuggestions down) (state (auto b)).
Proof.
intros Hoff. induction presses as [|presses (IHq & IHs & IHst)]; [auto|].
unfold press in *. rewrite Nat.iter_succ. rewrite Nat.iter_succ.
unfold handleKeyDown at 1 3 5.
destruct (iter_offering down (state (auto b)) presses Hoff) as ([Hshow Hitems] & _).
rewrite <- IHst in Hshow, Hitems.
rewrite Hshow.
assert (Hlen : (0 <? List.length
                  (suggestions
                     (state (auto (Nat.iter presses
                                     (handleKeyDown ArrowDown false disabled) b)))))%nat
               = true).
{ apply Nat.ltb_lt.
  destruct (suggestions
              (state (auto (Nat.iter presses
                              (handleKeyDown ArrowDown false disabled) b))));
    [congruence | simpl; lia]. }
rewrite Hlen. simpl. rewrite IHst. auto.
Qed.

(** X11: from a visible list with nothing selected, pressing ArrowDown
    [k+1] times and then Enter puts the non-empty item at index [k] into
    the question field, hides the list, resets the selection and submits
    nothing. *)
Theorem keyboard_pick (b : Box) (disabled : bool) (k : nat) (s : string) :
  showSuggestions (state (auto b)) = true ->
  selectedIndex (state (auto b)) = (-1)%Z ->
  nth_error (suggestions (state (auto b))) k = Some s ->
  s <> "" ->
  let picked := handleKeyDown Enter false disabled (press ArrowDown (S k) disabled b) in
  question picked = s
  /\ submitted picked = submitted b
  /\ showSuggestions (state (auto picked)) = false
  /\ selectedIndex (state (auto picked)) = (-1)%Z
  /\ suggestions (state (auto picked)) = suggestions (state (auto b)).
Proof.
intros Hshow Hsel Hnth Hs picked.
assert (Hk : k < List.length (suggestions (state (auto b))))
  by (apply nth_error_Some; congruence).
assert (Hitems : suggestions (state (auto b)) <> [])
  by (destruct (suggestions (state (auto b))); [simpl in Hk; lia | discriminate]).
assert (Hoff : offering (state (auto b))) by (split; assumption).
assert (Hrange : inRange (state (auto b))) by (unfold inRange; lia).
destruct (press_arrow b disabled (S k) Hoff) as (Hq & Hsub & Hst).
destruct (iter_offering down (state (auto b)) (S k) Hoff) as ([Hshow' Hitems'] & Hsame & _).
pose proof (iter_down_index (state (auto b)) (S k) Hoff Hrange) as Hindex.
rewrite Hsel in Hindex.
rewrite Z.mod_small in Hindex by lia.
rewrite <- Hst in Hshow', Hsame, Hindex.
replace (-1 + 1 + Z.of_nat (S k) - 1)%Z with (Z.of_nat k) in Hindex by lia.
subst picked. clear Hst.
remember (press ArrowDown (S k) disabled b) as p eqn:Hp. clear Hp.
assert (Hlen : (0 <? List.length (suggestions (state (auto p))))%nat = true)
  by (rewrite Hsame; apply Nat.ltb_lt; lia).
assert (Htake : selectSuggestion None (state (auto p))
                = (Some s, hideSuggestions (state (auto p)))).
{ unfold selectSuggestion. rewrite Hindex, Hsame.
  destruct (Z.leb_spec 0 (Z.of_nat k)); [|lia].
  destruct (Z.ltb_spec (Z.of_nat k)
              (Z.of_nat (List.length (suggestions (state (auto b))))));
    [|lia].
  cbn [andb]. rewrite Nat2Z.id, Hnth. reflexivity. }
assert (Hpicked : handleKeyDown Enter false disabled p = takeSuggestion None p).
{ unfold handleKeyDown. rewrite Hshow', Hlen, Hindex. cbn [andb].
  destruct (Z.leb_spec 0 (Z.of_nat k)); [reflexivity | lia]. }
rewrite Hpicked. unfold takeSuggestion. rewrite Htake.
apply truthy_nonempty in Hs. rewrite Hs. simpl.
repeat split; assumption.
Qed.

Lemma keyboard_pick_witness :
  question (handleKeyDown Enter false false
              (press ArrowDown 2 false
                 {| question := "wh";
                    auto := withState (installed threeItems) mount;
                    submitted := [] |}))
  = "What colors are most prominent?".
Proof.
assert (Hs : "What colors are most prominent?" <> "") by discriminate.
destruct (keyboard_pick
            {| question := "wh"; auto := withState (installed threeItems) mount;
               submitted := [] |} false 1 "What colors are most prominent?"
            eq_refl eq_refl eq_refl Hs) as (Hq & _).
exact Hq.
Defined.

End QuestionField.

(** ** The call to the vision model *)

Section VisionCall.

Import GeminiLib.

Lemma noSemicolon_cons (c : ascii) (s : string) :
  noSemicolon (String c s) -> Ascii.eqb c ";" = false /\ noSemicolon s.
Proof.
unfold noSemicolon. simpl. destruct (Ascii.eqb c ";"); [discriminate|].
intros [= H]. auto.
Qed.

Lemma untilSemicolon_append (t rest : string) :
  noSemicolon t -> untilSemicolon (t ++ String ";" rest) = t.
Proof.
induction t as [|c t IH]; intros Ht; [reflexivity|].
apply noSemicolon_cons in Ht. destruct Ht as [Hc Ht].
simpl. rewrite Hc, IH by exact Ht. reflexivity.
Qed.

(** A separator without semicolon cannot straddle one. *)
Lemma prefix_before_semicolon (sep u v : string) :
  noSemicolon sep ->
  String.prefix sep (u ++ String ";" v) = String.prefix sep u.
Proof.
revert u. induction sep as [|c sep IH]; intros u Hsep.
- now rewrite !prefix_empty.
- apply noSemicolon_cons in Hsep. destruct Hsep as [Hc Hsep].
  destruct u as [|d u]; simpl.
  + destruct (ascii_dec c ";") as [->|]; [discriminate | reflexivity].
  + destruct (ascii_dec c d); [apply IH, Hsep | reflexivity].
Qed.

Lemma afterFirst_unfold (sep s : string) :
  afterFirst sep s =
  if String.prefix sep s then Some (sliceFrom (String.length sep) s)
  else match s with
       | EmptyString => None
       | String _ rest => afterFirst sep rest
       end.
Proof. destruct s; reflexivity. Qed.

Lemma beforeFirst_unfold (sep s : string) :
  beforeFirst sep s =
  if String.prefix sep s then EmptyString
  else match s with
       | EmptyString => EmptyString
       | String c rest => String c (beforeFirst sep rest)
       end.
Proof. destruct s; reflexivity. Qed.

Lemma sliceFrom_append (s t : string) : sliceFrom (String.length s) (s ++ t) = t.
Proof. induction s as [|c s IH]; simpl; [destruct t; reflexivity | exact IH]. Qed.

Lemma includes_cons (c : ascii) (s p : string) :
  JS.includes (String c s) p = false ->
  String.prefix p (String c s) = false /\ JS.includes s p = false.
Proof. simpl. intros H. apply orb_false_iff in H. exact H. Qed.

Lemma afterFirst_semicolon (sep t p : string) :
  sep <> "" -> noSemicolon sep -> JS.includes t sep = false ->
  afterFirst sep (t ++ String ";" (sep ++ p)) = Some p.
Proof.
intros Hne Hsep. induction t as [|c t IH]; intros Ht.
- change ("" ++ String ";" (sep ++ p)) with (String ";" (sep ++ p)).
  rewrite afterFirst_unfold.
  change (String ";" (sep ++ p)) with ("" ++ String ";" (sep ++ p)) at 1.
  rewrite prefix_before_semicolon by exact Hsep.
  destruct sep as [|c sep]; [congruence|]. cbn [String.prefix].
  rewrite afterFirst_unfold, prefix_append, sliceFrom_append. reflexivity.
- apply includes_cons in Ht. destruct Ht as [Hhere Ht].
  rewrite afterFirst_unfold.
  rewrite prefix_before_semicolon by exact Hsep.
  rewrite Hhere. simpl. apply IH, Ht.
Qed.

Lemma beforeFirst_absent (sep p : string) :
  JS.includes p sep = false -> beforeFirst sep p = p.
Proof.
induction p as [|c p IH]; intros Hp.
- rewrite beforeFirst_unfold. destruct (String.prefix sep ""); reflexivity.
- apply includes_cons in Hp. destruct Hp as [Hhere Hp].
  rewrite beforeFirst_unfold, Hhere, IH by exact Hp. reflexivity.
Qed.

Lemma includes_inside (a sep b : string) : JS.includes (a ++ sep ++ b) sep = true.
Proof.
induction a as [|c a IH].
- change ("" ++ sep ++ b) with (sep ++ b). apply prefix_includes, prefix_append.
- change (String c a ++ sep ++ b) with (String c (a ++ sep ++ b)).
  cbn [JS.includes]. rewrite IH. apply orb_true_r.
Qed.

Lemma append_assoc_string (a b c : string) : (a ++ b) ++ c = a ++ b ++ c.
Proof. induction a as [|x a IH]; simpl; [reflexivity | now rewrite IH]. Qed.

Lemma dataURI_mimeType (subtype payload : string) :
  subtype <> "" -> noSemicolon subtype ->
  mimeType (dataURI subtype payload) = "image/" ++ subtype.
Proof.
intros Hne Hsub. unfold mimeType, dataURI.
rewrite (prefix_includes _ _ (prefix_append "data:image/" _)).
change ("data:image/" ++ subtype ++ ";base64," ++ payload)
  with ("data:image/" ++ subtype ++ String ";" ("base64," ++ payload)).
assert (Hmatch : mimeMatch ("data:image/" ++ subtype
                            ++ String ";" ("base64," ++ payload))
                 = Some subtype).
{ cbn -[untilSemicolon JS.truthy].
  rewrite untilSemicolon_append by exact Hsub.
  rewrite prefix_empty.
  apply truthy_nonempty in Hne. rewrite Hne. reflexivity. }
rewrite Hmatch. reflexivity.
Qed.

Lemma dataURI_base64Data (subtype payload : string) :
  JS.includes subtype "base64," = false -> JS.includes payload "base64," = false ->
  base64Data (dataURI subtype payload) = payload.
Proof.
intros Hsubtype Hpayload. unfold base64Data, dataURI.
change ("data:image/" ++ subtype ++ ";base64," ++ payload)
  with (("data:image/" ++ subtype) ++ String ";" ("base64," ++ payload)).
assert (Hhead : JS.includes ("data:image/" ++ subtype) "base64," = false)
  by (cbn -[JS.includes]; simpl; exact Hsubtype).
assert (Hinc : JS.includes (("data:image/" ++ subtype)
                            ++ String ";" ("base64," ++ payload)) "base64," = true).
{ change (String ";" ("base64," ++ payload))
    with (";" ++ "base64," ++ payload).
  rewrite <- append_assoc_string. apply includes_inside. }
rewrite Hinc. unfold splitSecond.
rewrite afterFirst_semicolon; [|discriminate|reflexivity|exact Hhead].
simpl. now rewrite beforeFirst_absent.
Qed.

(** X12: a data URI is taken apart into what it was built from. For a
    non-empty subtype without semicolon, and subtype and payload free of the
    text ["base64,"], the request built for [data:image/<subtype>;base64,<payload>]
    has mime type [image/<subtype>] and carries exactly the payload. An
    image string containing neither ["base64,"] nor ["data:image/"] is sent
    as it is, as [image/jpeg]. *)
Theorem data_uri_decoded (subtype payload : string) :
  (subtype <> "" -> noSemicolon subtype ->
   JS.includes subtype "base64," = false -> JS.includes payload "base64," = false ->
   mimeType (dataURI subtype payload) = "image/" ++ subtype
   /\ base64Data (dataURI subtype payload) = payload)
  /\ (JS.includes payload "base64," = false ->
      JS.includes payload "data:image/" = false ->
      mimeType payload = "image/jpeg" /\ base64Data payload = payload).
Proof.
split.
- intros Hne Hsub Hsubtype Hpayload.
  split; [now apply dataURI_mimeType | now apply dataURI_base64Data].
- intros Hb Hd. unfold mimeType, base64Data. rewrite Hb, Hd. auto.
Qed.

Lemma data_uri_decoded_witness :
  mimeType "data:image/png;base64,AAAA" = "image/png"
  /\ base64Data "data:image/png;base64,AAAA" = "AAAA".
Proof.
destruct (data_uri_decoded "png" "AAAA") as [Hdecode _].
assert (Hne : "png" <> "") by discriminate.
exact (Hdecode Hne eq_refl eq_refl eq_refl).
Defined.

Lemma caught_failure (message : option string) :
  GeminiRoute.success (caught message) = false
  /\ GeminiRoute.data (caught message) = None
  /\ exists m, GeminiRoute.error (caught message) = Some m.
Proof. unfold caught. simpl. eauto. Qed.

(** When [readReply] reports success, and what it returns then. *)
Lemma readReply_success (reply : VisionReply) :
  (GeminiRoute.success (readReply reply) = true ->
   exists candidate others first more,
     reply = VisionData (Some (candidate :: others))
     /\ parts candidate = Some (first :: more)
     /\ readReply reply = {| GeminiRoute.success := true; GeminiRoute.data := first;
                             GeminiRoute.error := None |})
  /\ (GeminiRoute.success (readReply reply) = false ->
      GeminiRoute.data (readReply reply) = None
      /\ exists m, GeminiRoute.error (readReply reply) = Some m).
Proof.
assert (Hfail : forall message,
          (GeminiRoute.success (caught message) = true ->
           exists candidate others first more,
             reply = VisionData (Some (candidate :: others))
             /\ parts candidate = Some (first :: more)
             /\ caught message = {| GeminiRoute.success := true;
                                    GeminiRoute.data := first;
                                    GeminiRoute.error := None |})
          /\ (GeminiRoute.success (caught message) = false ->
              GeminiRoute.data (caught message) = None
              /\ exists m, GeminiRoute.error (caught message) = Some m)).
{ intros message. split; [discriminate|]. intros _. unfold caught. simpl. eauto. }
destruct reply as [message | apiMessage status statusText | message | candidates];
  try apply Hfail.
destruct candidates as [[|candidate others]|]; try apply Hfail.
unfold readReply.
destruct (parts candidate) as [[|first more]|] eqn:Hparts.
- destruct (JS.truthy_opt (finishReason candidate)); [|apply Hfail].
  destruct (finishReason candidate) as [reason|]; [|apply Hfail].
  repeat match goal with
         | |- context [match ?x with _ => _ end] => destruct x; try apply Hfail
         end.
- split; [|discriminate]. intros _. exists candidate, others, first, more. auto.
- destruct (JS.truthy_opt (finishReason candidate)); [|apply Hfail].
  destruct (finishReason candidate) as [reason|]; [|apply Hfail].
  repeat match goal with
         | |- context [match ?x with _ => _ end] => destruct x; try apply Hfail
         end.
Qed.

Lemma readReply_parts (candidate : Candidate) (others : list Candidate)
    (first : option string) (more : list (option string)) :
  parts candidate = Some (first :: more) ->
  readReply (VisionData (Some (candidate :: others)))
  = {| GeminiRoute.success := true; GeminiRoute.data := first;
       GeminiRoute.error := None |}.
Proof. intros Hparts. unfold readReply. rewrite Hparts. reflexivity. Qed.

(** X13: [callGeminiVision] sends at most one request, and none without an
    API key, in which case it reports the missing key. It reports success
    exactly when the first candidate of the response has a first part: if
    it reports success the response had one, and whenever the response has
    one the result is success with that part's text as the answer, whatever
    the [finishReason]. A failure always comes with a message and without
    data. *)
Theorem vision_outcomes
    (key : option string) (gemini : VisionRequest -> VisionReply)
    (imageData question : string) :
  let r := fst (callGeminiVision key gemini imageData question) in
  let requests := snd (callGeminiVision key gemini imageData question) in
  (JS.truthy_opt key = false ->
   requests = [] /\ r = caught (Some keyMissing))
  /\ (forall k, key = Some k -> k <> "" ->
      requests = [{| apiKey := k; mime_type := mimeType imageData;
                     inline_data := base64Data imageData; text := question |}]
      /\ r = readReply (gemini {| apiKey := k; mime_type := mimeType imageData;
                                  inline_data := base64Data imageData;
                                  text := question |}))
  /\ List.length requests <= 1
  /\ (GeminiRoute.success r = true ->
      GeminiRoute.error r = None
      /\ exists request candidate others first more,
           requests = [request]
           /\ gemini request = VisionData (Some (candidate :: others))
           /\ parts candidate = Some (first :: more)
           /\ GeminiRoute.data r = first)
  /\ (GeminiRoute.success r = false ->
      GeminiRoute.data r = None /\ exists m, GeminiRoute.error r = Some m)
  /\ (forall k candidate others first more,
        key = Some k -> k <> "" ->
        gemini {| apiKey := k; mime_type := mimeType imageData;
                  inline_data := base64Data imageData; text := question |}
        = VisionData (Some (candidate :: others)) ->
        parts candidate = Some (first :: more) ->
        r = {| GeminiRoute.success := true; GeminiRoute.data := first;
               GeminiRoute.error := None |}).
Proof.
intros r requests. subst r requests. unfold callGeminiVision.
destruct (JS.truthy_opt key) eqn:Hkey.
- cbn [fst snd].
  split; [discriminate|]. split.
  { intros k -> _. auto. }
  split; [simpl; lia|].
  apply and_assoc. split;
    [|intros k candidate others first more -> _ Hreply Hparts;
      rewrite Hreply; apply (readReply_parts candidate others first more Hparts)].
  set (request := {| apiKey := match key with Some k => k | None => "" end;
                     mime_type := mimeType imageData;
                     inline_data := base64Data imageData; text := question |}).
  destruct (readReply_success (gemini request)) as [Hyes Hno].
  split; [|exact Hno].
  intros Hsuccess.
  destruct (Hyes Hsuccess) as (candidate & others & first & more & Hreply & Hparts & Hr).
  rewrite Hr. simpl. split; [reflexivity|].
  exists request, candidate, others, first, more. auto.
- cbn [fst snd].
  split; [auto|]. split.
  { intros k -> Hk. apply truthy_nonempty in Hk. simpl in Hkey. congruence. }
  split; [simpl; lia|].
  split; [discriminate|]. split; [intros _; unfold caught; simpl; eauto|].
  intros k candidate others first more -> Hk _ _.
  apply truthy_nonempty in Hk. simpl in Hkey. congruence.
Qed.

Lemma vision_outcomes_witness :
  snd (callGeminiVision None (fun _ => VisionData None) "AAAA" "What is this?") = []
  /\ fst (callGeminiVision None (fun _ => VisionData None) "AAAA" "What is this?")
     = caught (Some keyMissing)
  /\ fst (callGeminiVision (Some "key")
            (fun _ => VisionData
                        (Some [{| parts := Some [Some "A cat."; Some "A dog."];
                                  finishReason := Some "SAFETY" |};
                               {| parts := Some [Some "A bird."];
                                  finishReason := None |}]))
            "AAAA" "What is this?")
     = {| GeminiRoute.success := true; GeminiRoute.data := Some "A cat.";
          GeminiRoute.error := None |}.
Proof.
destruct (vision_outcomes None (fun _ => VisionData None) "AAAA" "What is this?")
  as (Hnokey & _).
split; [exact (proj1 (Hnokey eq_refl))|]. split; [exact (proj2 (Hnokey eq_refl))|].
destruct (vision_outcomes (Some "key")
            (fun _ => VisionData
                        (Some [{| parts := Some [Some "A cat."; Some "A dog."];
                                  finishReason := Some "SAFETY" |};
                               {| parts := Some [Some "A bird."];
                                  finishReason := None |}]))
            "AAAA" "What is this?") as (_ & _ & _ & _ & _ & Hyes).
assert (Hk : "key" <> "") by discriminate.
exact (Hyes "key" _ _ _ _ eq_refl Hk eq_refl eq_refl).
Defined.

(** X14: the question route lets through to the model only a non-empty image
    with a question of 1 to 500 characters, unchanged, and then answers
    with the model's response; otherwise it answers with a failure of its
    own and calls nothing. *)
Theorem route_guards_model
    (vision : string -> string -> GeminiRoute.GeminiResponse) (image question : string) :
  let r := fst (GeminiRoute.POST vision image question) in
  let calls := snd (GeminiRoute.POST vision image question) in
  (image <> "" /\ 1 <= String.length question <= 500 ->
   calls = [(image, question)] /\ r = vision image question)
  /\ (~ (image <> "" /\ 1 <= String.length question <= 500) ->
      calls = []
      /\ GeminiRoute.success r = false
      /\ exists m, GeminiRoute.error r = Some m).
Proof.
intros r calls. subst r calls. unfold GeminiRoute.POST.
destruct (JS.truthy image) eqn:Himage; cbn [negb orb].
- apply truthy_nonempty in Himage.
  destruct (JS.truthy question) eqn:Hquestion; cbn [negb].
  + apply truthy_nonempty in Hquestion.
    assert (Hpos : 1 <= String.length question)
      by (destruct question; [congruence | simpl; lia]).
    destruct (Nat.ltb_spec 500 (String.length question)); cbn [fst snd].
    * split; [lia|]. intros _. unfold GeminiRoute.refuse. simpl. eauto.
    * split; [auto|]. intros Hnot. exfalso. apply Hnot. auto.
  + assert (Hblank : question = "").
    { destruct (String.eqb_spec question ""); [assumption|].
      apply truthy_nonempty in n. congruence. }
    subst question. cbn [fst snd]. split; [simpl; lia|].
    intros _. unfold GeminiRoute.refuse. simpl. eauto.
- assert (Hblank : image = "").
  { destruct (String.eqb_spec image ""); [assumption|].
    apply truthy_nonempty in n. congruence. }
  cbn [fst snd]. split; [tauto|].
  intros _. unfold GeminiRoute.refuse. simpl. eauto.
Qed.

Lemma route_guards_model_witness :
  snd (GeminiRoute.POST GeminiChat.describes "data:image/png;base64,AAAA" "What is this?")
  = [("data:image/png;base64,AAAA", "What is this?")].
Proof.
destruct (route_guards_model GeminiChat.describes
            "data:image/png;base64,AAAA" "What is this?") as [Hok _].
assert (Hvalid : "data:image/png;base64,AAAA" <> ""
                 /\ 1 <= String.length "What is this?" <= 500)
  by (split; [discriminate | simpl; lia]).
exact (proj1 (Hok Hvalid)).
Defined.

End VisionCall.

(** ** More on the image query pipeline *)

Section PipelineMore.

Import GeminiChat.

(** A call that got past the image check, spelled out. *)
Lemma askQuestion_flight (net : Network) (question : string) (h : Hook)
    (d : ImageData) (image : string) :
  imageData h = Some d -> currentImage h = Some image -> JS.truthy image = true ->
  askQuestion net question h =
  let fl := {| askedGeneration := generation h; askedImage := image;
               askedData := d; askedQuestion := question |} in
  ({| chatState := snd (askQuestion_network net fl);
      currentImage := currentImage h; imageData := imageData h;
      generation := generation h |},
   fst (askQuestion_network net fl)).
Proof.
intros Hd Hi Ht. unfold askQuestion, askQuestion_during, askQuestion_begin.
rewrite Hd, Hi, Ht. cbv zeta.
destruct (askQuestion_network net _) as [traffic outcome]. reflexivity.
Qed.

Lemma network_with_image (net : Network) (fl : Flight) (traffic : list NetEvent)
    (image : string) :
  prepareImage net fl = (traffic, Some image) ->
  askQuestion_network net fl =
  ((traffic ++ [PostGemini image (JS.trim (askedQuestion fl))])%list,
   replyState (postGemini net image (JS.trim (askedQuestion fl)))).
Proof.
intros Hprep. unfold askQuestion_network. rewrite Hprep.
destruct (postGemini net image (JS.trim (askedQuestion fl))) as [[m|]|[] ? ?];
  reflexivity.
Qed.

(** A call on an uploaded file. *)
Lemma ask_file_image (net : Network) (question : string) (h : Hook)
    (d : ImageData) (f image : string) :
  imageData h = Some d -> file d = Some f ->
  currentImage h = Some image -> JS.truthy image = true ->
  askQuestion net question h =
  ({| chatState := replyState (postGemini net image (JS.trim question));
      currentImage := currentImage h; imageData := imageData h;
      generation := generation h |},
   [PostGemini image (JS.trim question)]).
Proof.
intros Hd Hf Hi Ht.
rewrite (askQuestion_flight net question h d image Hd Hi Ht). cbv zeta.
rewrite (network_with_image net _ [] image); [reflexivity|].
unfold prepareImage. simpl. rewrite Hf. reflexivity.
Qed.

(** The traffic of one call: at most one image fetch, then at most one post,
    which carries the trimmed question. *)
Lemma askQuestion_traffic (net : Network) (question : string) (h : Hook) :
  snd (askQuestion net question h) = []
  \/ (exists location, snd (askQuestion net question h) = [FetchImage location])
  \/ (exists image,
        snd (askQuestion net question h) = [PostGemini image (JS.trim question)])
  \/ (exists location image,
        snd (askQuestion net question h)
        = [FetchImage location; PostGemini image (JS.trim question)]).
Proof.
destruct (imageData h) as [d|] eqn:Hd;
  [|left; unfold askQuestion, askQuestion_during, askQuestion_begin;
    rewrite Hd; reflexivity].
destruct (currentImage h) as [image|] eqn:Hi;
  [|left; unfold askQuestion, askQuestion_during, askQuestion_begin;
    rewrite Hd, Hi; reflexivity].
destruct (JS.truthy image) eqn:Ht;
  [|left; unfold askQuestion, askQuestion_during, askQuestion_begin;
    rewrite Hd, Hi, Ht; reflexivity].
rewrite (askQuestion_flight net question h d image Hd Hi Ht). cbv zeta. cbn [snd].
set (fl := {| askedGeneration := generation h; askedImage := image;
              askedData := d; askedQuestion := question |}).
destruct (prepareImage_traffic net fl)
  as [[location Hprep] | (traffic & prepared & Hprep & Hshape)].
- right. left. exists location. unfold askQuestion_network. rewrite Hprep. reflexivity.
- rewrite (network_with_image net fl traffic prepared Hprep). cbn [fst askedQuestion fl].
  destruct Hshape as [-> | [location ->]].
  + right. right. left. exists prepared. reflexivity.
  + right. right. right. exists location, prepared. reflexivity.
Qed.

(** What the backend answers when route and model are as in the sources. *)
Lemma backend_reply (k : string)
    (gemini : GeminiLib.VisionRequest -> GeminiLib.VisionReply)
    (images : string -> ImageFetch) (image question : string) :
  k <> "" -> image <> "" -> question <> "" -> String.length question <= 500 ->
  let request := {| GeminiLib.apiKey := k;
                    GeminiLib.mime_type := GeminiLib.mimeType image;
                    GeminiLib.inline_data := GeminiLib.base64Data image;
                    GeminiLib.text := question |} in
  postGemini (Page.backend (Some k) gemini images) image question
  = ReplyJson (GeminiRoute.success (GeminiLib.readReply (gemini request)))
              (GeminiRoute.data (GeminiLib.readReply (gemini request)))
              (GeminiRoute.error (GeminiLib.readReply (gemini request)))
  /\ snd (GeminiRoute.POST (Page.vision (Some k) gemini) image question)
     = [(image, question)]
  /\ snd (GeminiLib.callGeminiVision (Some k) gemini image question) = [request].
Proof.
intros Hk Himage Hquestion Hlen request.
apply truthy_nonempty in Hk, Himage, Hquestion.
unfold Page.backend, viaRoute, GeminiRoute.POST, Page.vision,
  GeminiLib.callGeminiVision.
cbn [postGemini JS.truthy_opt]. rewrite Hk, Himage, Hquestion.
destruct (Nat.ltb_spec 500 (String.length question)); [lia|].
cbn [negb orb fst snd]. auto.
Qed.

(** X15: an uploaded file is never fetched: for a file-kind image the only
    traffic of a call is one post to the route, carrying the stored preview
    and the trimmed question, and the chat state becomes what the route's
    reply maps to. *)
Theorem file_image_is_posted_directly
    (net : Network) (question : string) (h : Hook) (d : ImageData) (f image : string) :
  imageData h = Some d -> file d = Some f ->
  currentImage h = Some image -> image <> "" ->
  snd (askQuestion net question h) = [PostGemini image (JS.trim question)]
  /\ chatState (fst (askQuestion net question h))
     = replyState (postGemini net image (JS.trim question)).
Proof.
intros Hd Hf Hi Hne. apply truthy_nonempty in Hne.
rewrite (ask_file_image net question h d f image Hd Hf Hi Hne). auto.
Qed.

Lemma file_image_is_posted_directly_witness :
  snd (askQuestion hostDown " What is this? " (handleImageSelect photoA mount))
  = [PostGemini "data:image/png;base64,AAAA" "What is this?"].
Proof.
assert (Hne : "data:image/png;base64,AAAA" <> "") by discriminate.
exact (proj1 (file_image_is_posted_directly hostDown " What is this? "
                (handleImageSelect photoA mount) photoA "a.png"
                "data:image/png;base64,AAAA" eq_refl eq_refl eq_refl Hne)).
Defined.

(** X16: a call never changes the image, and with an image set it always
    comes to rest: [isLoading] is false afterwards, result and error are
    never both set, and after a failure [retry] brings the chat state back
    to idle. *)
Theorem ask_settles (net : Network) (question : string) (h : Hook) :
  let after := fst (askQuestion net question h) in
  currentImage after = currentImage h
  /\ imageData after = imageData h
  /\ generation after = generation h
  /\ (imageData h <> None -> JS.truthy_opt (currentImage h) = true ->
      isLoading (chatState after) = false
      /\ (result (chatState after) = None \/ error (chatState after) = None)
      /\ (error (chatState after) <> None -> chatState (retry after) = idle)).
Proof.
intros after. subst after.
destruct (imageData h) as [d|] eqn:Hd;
  [|unfold askQuestion, askQuestion_during, askQuestion_begin; rewrite Hd;
    simpl; repeat split; auto; congruence].
destruct (currentImage h) as [image|] eqn:Hi;
  [|unfold askQuestion, askQuestion_during, askQuestion_begin; rewrite Hd, Hi;
    simpl; repeat split; auto; discriminate].
destruct (JS.truthy image) eqn:Ht;
  [|unfold askQuestion, askQuestion_during, askQuestion_begin; rewrite Hd, Hi, Ht;
    simpl; repeat split; auto; congruence].
rewrite (askQuestion_flight net question h d image Hd Hi Ht). cbv zeta. cbn [fst].
cbn [currentImage imageData generation chatState].
split; [auto|]. split; [auto|]. split; [auto|]. intros _ _.
set (fl := {| askedGeneration := generation h; askedImage := image;
              askedData := d; askedQuestion := question |}).
assert (Hrest : forall reply,
          isLoading (replyState reply) = false
          /\ (result (replyState reply) = None \/ error (replyState reply) = None)
          /\ (error (replyState reply) <> None ->
              {| result := result (replyState reply);
                 isLoading := isLoading (replyState reply); error := None |} = idle)).
{ intros [[m|]|[] data err]; simpl; repeat split; auto; congruence. }
destruct (prepareImage_traffic net fl)
  as [[location Hprep] | (traffic & prepared & Hprep & _)].
- unfold askQuestion_network. rewrite Hprep. simpl. unfold retry. simpl. auto.
- rewrite (network_with_image net fl traffic prepared Hprep). cbn [snd].
  unfold retry. cbn [chatState]. apply Hrest.
Qed.

Lemma ask_settles_witness :
  isLoading (chatState (fst (askQuestion hostDown "What is this?"
                               (handleImageSelect remote mount)))) = false
  /\ chatState (retry (fst (askQuestion hostDown "What is this?"
                              (handleImageSelect remote mount)))) = idle.
Proof.
destruct (ask_settles hostDown "What is this?" (handleImageSelect remote mount))
  as (_ & _ & _ & Hset).
assert (Hdata : imageData (handleImageSelect remote mount) <> None) by discriminate.
destruct (Hset Hdata eq_refl) as (Hload & _ & Hretry).
split; [exact Hload|]. apply Hretry. discriminate.
Defined.

End PipelineMore.

(** ** From the page to the model and back *)

Section EndToEnd.

Import GeminiChat.

(** X17: an uploaded image reaches the model decoded. With an API key set,
    a file image whose preview is a well-formed data URI, and a question of
    1 to 500 characters after trimming, a call posts once to the route, the
    model receives exactly one request, carrying the key, the mime type and
    payload taken from the data URI and the trimmed question, and the chat
    state becomes what the reading of the model's reply maps to. *)
Theorem upload_reaches_model
    (k : string) (gemini : GeminiLib.VisionRequest -> GeminiLib.VisionReply)
    (images : string -> ImageFetch) (question : string) (h : Hook)
    (d : ImageData) (f subtype payload : string) :
  k <> "" ->
  imageData h = Some d -> file d = Some f ->
  currentImage h = Some (GeminiLib.dataURI subtype payload) ->
  subtype <> "" -> GeminiLib.noSemicolon subtype ->
  JS.includes subtype "base64," = false -> JS.includes payload "base64," = false ->
  JS.trim question <> "" -> String.length (JS.trim question) <= 500 ->
  let request := {| GeminiLib.apiKey := k;
                    GeminiLib.mime_type := "image/" ++ subtype;
                    GeminiLib.inline_data := payload;
                    GeminiLib.text := JS.trim question |} in
  let call := askQuestion (Page.backend (Some k) gemini images) question h in
  snd call = [PostGemini (GeminiLib.dataURI subtype payload) (JS.trim question)]
  /\ Page.modelRequests (Some k) gemini (snd call) = [request]
  /\ chatState (fst call)
     = replyState
         (ReplyJson (GeminiRoute.success (GeminiLib.readReply (gemini request)))
                    (GeminiRoute.data (GeminiLib.readReply (gemini request)))
                    (GeminiRoute.error (GeminiLib.readReply (gemini request)))).
Proof.
intros Hk Hd Hf Hi Hne Hsemi Hsub Hpay Hq Hlen request call.
assert (Huri : GeminiLib.dataURI subtype payload <> "") by discriminate.
assert (Htruthy : JS.truthy (GeminiLib.dataURI subtype payload) = true)
  by (now apply truthy_nonempty).
subst call.
rewrite (ask_file_image _ question h d f _ Hd Hf Hi Htruthy). cbn [fst snd chatState].
destruct (backend_reply k gemini images (GeminiLib.dataURI subtype payload)
            (JS.trim question) Hk Huri Hq Hlen) as (Hreply & Hroute & Hmodel).
rewrite (dataURI_mimeType subtype payload Hne Hsemi) in Hreply, Hmodel.
rewrite (dataURI_base64Data subtype payload Hsub Hpay) in Hreply, Hmodel.
fold request in Hreply, Hmodel.
split; [reflexivity|]. split; [|now rewrite Hreply].
unfold Page.modelRequests, visionCalls. cbn [flat_map].
rewrite Hroute. cbn [app flat_map fst snd]. rewrite Hmodel. reflexivity.
Qed.

Lemma upload_reaches_model_witness :
  Page.modelRequests (Some "key") (fun _ => GeminiLib.VisionData None)
    (snd (askQuestion (Page.backend (Some "key") (fun _ => GeminiLib.VisionData None)
                         (fun _ => ImageFetchFailed))
            " What is this? " (handleImageSelect photoA mount)))
  = [{| GeminiLib.apiKey := "key"; GeminiLib.mime_type := "image/png";
        GeminiLib.inline_data := "AAAA"; GeminiLib.text := "What is this?" |}].
Proof.
assert (Hk : "key" <> "") by discriminate.
assert (Hne : "png" <> "") by discriminate.
assert (Hq : JS.trim " What is this? " <> "") by discriminate.
assert (Hlen : String.length (JS.trim " What is this? ") <= 500) by (simpl; lia).
destruct (upload_reaches_model "key" (fun _ => GeminiLib.VisionData None)
            (fun _ => ImageFetchFailed) " What is this? "
            (handleImageSelect photoA mount) photoA "a.png" "png" "AAAA"
            Hk eq_refl eq_refl eq_refl Hne eq_refl eq_refl eq_refl Hq Hlen)
  as (_ & Hmodel & _).
exact Hmodel.
Defined.

(** X18: content the model declines to answer surfaces as its own message.
    With an API key set, a file image and a question of 1 to 500 characters
    after trimming, if the first candidate of the model's response has no
    parts and finish reason SAFETY (or RECITATION), the call ends with the
    safety (or recitation) message as its error, no result, not loading. *)
Theorem blocked_content_surfaces
    (k : string) (gemini : GeminiLib.VisionRequest -> GeminiLib.VisionReply)
    (images : string -> ImageFetch) (question : string) (h : Hook)
    (d : ImageData) (f image : string)
    (candidate : GeminiLib.Candidate) (others : list GeminiLib.Candidate) :
  k <> "" ->
  imageData h = Some d -> file d = Some f ->
  currentImage h = Some image -> image <> "" ->
  JS.trim question <> "" -> String.length (JS.trim question) <= 500 ->
  (forall request, gemini request = GeminiLib.VisionData (Some (candidate :: others))) ->
  GeminiLib.parts candidate = None \/ GeminiLib.parts candidate = Some [] ->
  let after := fst (askQuestion (Page.backend (Some k) gemini images) question h) in
  (GeminiLib.finishReason candidate = Some "SAFETY" ->
   chatState after = {| result := None; isLoading := false;
                        error := Some GeminiLib.blockedSafety |})
  /\ (GeminiLib.finishReason candidate = Some "RECITATION" ->
      chatState after = {| result := None; isLoading := false;
                           error := Some GeminiLib.blockedRecitation |}).
Proof.
intros Hk Hd Hf Hi Himage Hq Hlen Hgemini Hparts after. subst after.
pose proof Himage as Htruthy. apply truthy_nonempty in Htruthy.
rewrite (ask_file_image _ question h d f image Hd Hf Hi Htruthy). cbn [fst chatState].
destruct (backend_reply k gemini images image (JS.trim question) Hk Himage Hq Hlen)
  as (Hreply & _).
rewrite Hreply, Hgemini. unfold GeminiLib.readReply.
split; intros Hreason; rewrite Hreason;
  destruct Hparts as [-> | ->]; reflexivity.
Qed.

Lemma blocked_content_surfaces_witness :
  chatState (fst (askQuestion
                    (Page.backend (Some "key")
                       (fun _ => GeminiLib.VisionData
                                   (Some [{| GeminiLib.parts := None;
                                             GeminiLib.finishReason := Some "SAFETY" |}]))
                       (fun _ => ImageFetchFailed))
                    "What is this?" (handleImageSelect photoA mount)))
  = {| result := None; isLoading := false; error := Some GeminiLib.blockedSafety |}.
Proof.
assert (Hk : "key" <> "") by discriminate.
assert (Himage : "data:image/png;base64,AAAA" <> "") by discriminate.
assert (Hq : JS.trim "What is this?" <> "") by discriminate.
assert (Hlen : String.length (JS.trim "What is this?") <= 500) by (simpl; lia).
destruct (blocked_content_surfaces "key"
            (fun _ => GeminiLib.VisionData
                        (Some [{| GeminiLib.parts := None;
                                  GeminiLib.finishReason := Some "SAFETY" |}]))
            (fun _ => ImageFetchFailed) "What is this?"
            (handleImageSelect photoA mount) photoA "a.png"
            "data:image/png;base64,AAAA"
            {| GeminiLib.parts := None; GeminiLib.finishReason := Some "SAFETY" |} []
            Hk eq_refl eq_refl eq_refl Himage Hq Hlen (fun _ => eq_refl)
            (or_introl eq_refl)) as [Hsafety _].
exact (Hsafety eq_refl).
Defined.

(** X19: what the uploader hands to the pipeline. A blank URL and a file
    whose type does not start with [image/] change nothing. A non-blank URL
    is stored trimmed, resets the chat state, and the next question
    begins by fetching exactly that URL. An image file with a non-empty
    data URL is posted as read, without any fetch. *)
Theorem uploader_feeds_pipeline (net : Network) (question : string) (h : Hook) :
  (forall urlInput, JS.trim urlInput = "" ->
     ImageUploader.handleUrlSubmit urlInput h = h)
  /\ (forall urlInput, JS.trim urlInput <> "" ->
        currentImage (ImageUploader.handleUrlSubmit urlInput h)
        = Some (JS.trim urlInput)
        /\ chatState (ImageUploader.handleUrlSubmit urlInput h) = idle
        /\ exists rest,
             snd (askQuestion net question (ImageUploader.handleUrlSubmit urlInput h))
             = FetchImage (JS.trim urlInput) :: rest)
  /\ (forall upload, JS.startsWith (ImageUploader.type upload) "image/" = false ->
        ImageUploader.handleFileSelect upload h = h)
  /\ (forall upload, JS.startsWith (ImageUploader.type upload) "image/" = true ->
        ImageUploader.dataUrl upload <> "" ->
        snd (askQuestion net question (ImageUploader.handleFileSelect upload h))
        = [PostGemini (ImageUploader.dataUrl upload) (JS.trim question)]).
Proof.
split; [|split; [|split]].
- intros urlInput Hblank. unfold ImageUploader.handleUrlSubmit.
  rewrite Hblank. reflexivity.
- intros urlInput Hurl. unfold ImageUploader.handleUrlSubmit.
  pose proof Hurl as Htruthy. apply truthy_nonempty in Htruthy. rewrite Htruthy.
  split; [reflexivity|]. split; [reflexivity|].
  rewrite (askQuestion_flight net question
             (handleImageSelect
                {| file := None; url := Some (JS.trim urlInput);
                   preview := JS.trim urlInput |} h)
             {| file := None; url := Some (JS.trim urlInput);
                preview := JS.trim urlInput |}
             (JS.trim urlInput) eq_refl eq_refl Htruthy).
  cbv zeta. cbn [snd].
  unfold askQuestion_network, prepareImage.
  cbn [askedData file url askedImage]. rewrite Htruthy.
  destruct (fetchImage net (JS.trim urlInput)) as [|payload].
  + exists []. reflexivity.
  + destruct (postGemini net payload _) as [[m|]|[] ? ?]; eexists; reflexivity.
- intros upload Htype. unfold ImageUploader.handleFileSelect. now rewrite Htype.
- intros upload Htype Hdata. unfold ImageUploader.handleFileSelect. rewrite Htype.
  apply truthy_nonempty in Hdata.
  rewrite (ask_file_image net question
             (handleImageSelect
                {| file := Some (ImageUploader.name upload); url := None;
                   preview := ImageUploader.dataUrl upload |} h)
             {| file := Some (ImageUploader.name upload); url := None;
                preview := ImageUploader.dataUrl upload |}
             (ImageUploader.name upload)
             (ImageUploader.dataUrl upload) eq_refl eq_refl eq_refl Hdata).
  reflexivity.
Qed.

Lemma uploader_feeds_pipeline_witness :
  exists rest,
    snd (askQuestion hostDown "What is this?"
           (ImageUploader.handleUrlSubmit "  https://example.org/cat.jpg " mount))
    = FetchImage "https://example.org/cat.jpg" :: rest.
Proof.
destruct (uploader_feeds_pipeline hostDown "What is this?" mount) as (_ & Hurl & _).
assert (Hne : JS.trim "  https://example.org/cat.jpg " <> "") by discriminate.
exact (proj2 (proj2 (Hurl "  https://example.org/cat.jpg " Hne))).
Defined.

(** X20: the question field in front of the pipeline. While an answer is
    loading, or when the question is blank, a submit does nothing and causes
    no traffic. Otherwise it is one call of [askQuestion] with the trimmed
    question, and the field is emptied. In every case a question that is
    posted to the route is the trimmed text of the field and is not empty. *)
Theorem page_submit_contract (net : Network) (b : QuestionBox.Box) (h : Hook) :
  let outcome := Page.submitQuestion net b h in
  (isLoading (chatState h) = true \/ JS.trim (QuestionBox.question b) = "" ->
   outcome = (b, h, []))
  /\ (isLoading (chatState h) = false -> JS.trim (QuestionBox.question b) <> "" ->
      snd (fst outcome) = fst (askQuestion net (JS.trim (QuestionBox.question b)) h)
      /\ snd outcome = snd (askQuestion net (JS.trim (QuestionBox.question b)) h)
      /\ QuestionBox.question (fst (fst outcome)) = "")
  /\ (forall image posted,
        In (PostGemini image posted) (snd outcome) ->
        posted = JS.trim (QuestionBox.question b) /\ posted <> "").
Proof.
intros outcome. subst outcome. unfold Page.submitQuestion, QuestionBox.handleSubmit.
destruct (JS.truthy (JS.trim (QuestionBox.question b))) eqn:Htext;
  destruct (isLoading (chatState h)) eqn:Hload; cbn [andb negb].
- rewrite skipn_all. simpl. split; [auto|]. split; [discriminate|]. intros ? ? [].
- cbn [QuestionBox.submitted QuestionBox.question]. rewrite skipn_past. cbn [fold_left fst snd].
  apply truthy_nonempty in Htext.
  destruct (askQuestion net (JS.trim (QuestionBox.question b)) h)
    as [h' traffic] eqn:Hask.
  cbn [fst snd app]. split; [intros [|]; congruence|]. split; [auto|].
  intros image posted Hin.
  pose proof (askQuestion_traffic net (JS.trim (QuestionBox.question b)) h) as Hshape.
  rewrite Hask in Hshape. cbn [snd] in Hshape.
  rewrite trim_idempotent in Hshape.
  destruct Hshape as [-> | [[location ->] | [[img ->] | (location & img & ->)]]];
    simpl in Hin; intuition (try discriminate);
    match goal with
    | H : PostGemini _ _ = PostGemini _ _ |- _ => injection H as _ <-
    end; auto.
- rewrite skipn_all. simpl. split; [auto|]. split; [discriminate|]. intros ? ? [].
- rewrite skipn_all. simpl. split; [auto|].
  assert (Hblank : JS.trim (QuestionBox.question b) = "").
  { destruct (String.eqb_spec (JS.trim (QuestionBox.question b)) "");
      [assumption|]. apply truthy_nonempty in n. congruence. }
  split; [congruence|]. intros ? ? [].
Qed.

Lemma page_submit_contract_witness :
  snd (Page.submitQuestion hostDown
         {| QuestionBox.question := " What is this? "; QuestionBox.auto := AutoComplete.mount;
            QuestionBox.submitted := [] |}
         (handleImageSelect photoA mount))
  = [PostGemini "data:image/png;base64,AAAA" "What is this?"].
Proof.
destruct (page_submit_contract hostDown
            {| QuestionBox.question := " What is this? ";
               QuestionBox.auto := AutoComplete.mount; QuestionBox.submitted := [] |}
            (handleImageSelect photoA mount)) as (_ & Hsubmit & _).
assert (Hq : JS.trim " What is this? " <> "") by discriminate.
destruct (Hsubmit eq_refl Hq) as (_ & Htraffic & _).
exact Htraffic.
Defined.

End EndToEnd.

(** ** The local tier *)

Section LocalTier.

Import Suggestions.

(** X21: the list of the local service is passed on as it is. When the
    remote tier yields nothing and a local model URL is configured, a
    non-empty list returned by the local service is the resolver's result,
    whatever its length and whatever the length of its entries; the caps of
    the other tiers do not apply to it. *)
Theorem local_tier_verbatim (env : Env) (partial : string) (items : list string) :
  (if JS.truthy_opt (HUGGING_FACE_API_KEY env)
   then callHuggingFaceModel partial (huggingFace env) else []) = [] ->
  JS.truthy_opt (LOCAL_MODEL_API_URL env) = true ->
  localModel env = LocalData (Some items) ->
  items <> [] ->
  generateSuggestions env partial = items
  /\ (3 <= String.length partial -> POST env partial = Some items).
Proof.
intros Hhf Hurl Hlocal Hitems.
assert (Hgen : generateSuggestions env partial = items).
{ unfold generateSuggestions, tryLocalModel. rewrite Hhf, Hurl, Hlocal.
  destruct items; [congruence | reflexivity]. }
split; [exact Hgen|].
intros Hlen. unfold POST.
assert (Htruthy : JS.truthy partial = true)
  by (apply truthy_nonempty; destruct partial; [simpl in Hlen; lia | discriminate]).
rewrite Htruthy. cbn [negb].
destruct (Nat.ltb_spec (String.length partial) 3); [lia|]. now rewrite Hgen.
Qed.

Lemma local_tier_verbatim_witness :
  List.length
    (generateSuggestions
       {| HUGGING_FACE_API_KEY := None; LOCAL_MODEL_API_URL := Some "http://localhost:8000";
          huggingFace := HFUnreachable;
          localModel := LocalData (Some ["a"; "b"; "c"; "d"]) |} "what") = 4.
Proof.
assert (Hitems : ["a"; "b"; "c"; "d"] <> []) by discriminate.
destruct (local_tier_verbatim
            {| HUGGING_FACE_API_KEY := None;
               LOCAL_MODEL_API_URL := Some "http://localhost:8000";
               huggingFace := HFUnreachable;
               localModel := LocalData (Some ["a"; "b"; "c"; "d"]) |} "what"
            ["a"; "b"; "c"; "d"] eq_refl eq_refl eq_refl Hitems) as [Hgen _].
rewrite Hgen. reflexivity.
Defined.

Lemma resolver_bounded_without_local_witness :
  List.length (generateSuggestions offline "what") <= 3
  /\ POST offline "what obj" = Some ["What objects are in this image?"]
  /\ POST offline "wh" = Some []
  /\ POST offline "" = None.
Proof.
split; [exact (proj1 (resolver_bounded_without_local offline "what" eq_refl))|].
split; [exact (proj1 (proj2 (proj2
          (resolver_bounded_without_local offline "what obj" eq_refl))))|].
split; [exact (proj1 (proj2 (proj2
          (resolver_bounded_without_local offline "wh" eq_refl))))|].
exact (proj1 (proj2 (proj2 (resolver_bounded_without_local offline "" eq_refl)))).
Defined.

End LocalTier.
